(** * chest: a dictionary that spills to disk

    A shallow embedding of [chest/core.py] and the properties of its
    store that the specification states.

    The Python object [Chest] becomes a record holding its mutable parts
    (the in-memory dict, the set of tracked keys, the content of the
    backing directory) and every method becomes a function from a store
    to an outcome paired with the store it leaves behind: a Python
    exception does not roll back the mutations made before it was
    raised, so a raising call still returns the mutated store.

    What the model fixes:
    - the directory is flat, a finite map from file names to contents;
      opening a file for writing creates or truncates it and does not
      fail, opening a missing file for reading raises;
    - [inmem] is a finite map, so the order in which [sorted] and
      [list(self.inmem)] meet entries of equal size is the order of the
      map's enumeration; no statement below depends on it;
    - [nbytes], [dump] and [load] are functions of their argument, and
      sizes and the budget are integers;
    - strings are sequences of 8-bit characters and [\w] is the ASCII
      class, as for a Python 2 [str]; on Python 3 [\w] accepts other
      letters and digits as well, none of them a newline, a dot, a
      slash or an ASCII digit, which is all that the statements on file
      names use of the class;
    - the message of the [KeyError] of a read is formatted with the
      key, which raises [TypeError] for a tuple key of a length other
      than one. *)

From Stdlib Require Import ZArith Lia.
From stdpp Require Import gmap strings list fin_maps sorting pretty.

(** ** File names from keys: [key_to_filename] *)

#[local] Set Warnings "-register-all".

(** Python keys, as far as [key_to_filename] tells them apart: a [str],
    or some other hashable object. *)
Inductive pykey :=
  | KStr (s : string)
  | KInt (n : Z)
  | KTuple (ks : list pykey).

(** The newline character; strings are sequences of 8-bit characters. *)
Definition newline : Ascii.ascii := Ascii.ascii_of_nat 10.

Definition in_range (lo hi : nat) (c : Ascii.ascii) : bool :=
  (lo <=? Ascii.nat_of_ascii c)%nat && (Ascii.nat_of_ascii c <=? hi)%nat.

(** The character class [[_a-zA-Z]]. *)
Definition is_ident_start (c : Ascii.ascii) : bool :=
  Ascii.eqb c (Ascii.ascii_of_nat 95) || in_range 97 122 c || in_range 65 90 c.

(** The character class [\w], on ASCII: [[a-zA-Z0-9_]]. *)
Definition is_word (c : Ascii.ascii) : bool :=
  is_ident_start c || in_range 48 57 c.

(** [\w*$] against the rest of the subject. In Python's [re], without
    the MULTILINE flag, [$] matches at the end of the string and also
    just before a newline that is the last character of the string. *)
Fixpoint match_word_star_end (s : string) : bool :=
  match s with
  | EmptyString => true
  | String c rest =>
      if is_word c then match_word_star_end rest
      else Ascii.eqb c newline && String.eqb rest EmptyString
  end.

(** [re.match('^[_a-zA-Z]\w*$', key)], as a truth value. *)
Definition re_match_identifier (s : string) : bool :=
  match s with
  | EmptyString => false
  | String c rest => is_ident_start c && match_word_star_end rest
  end.

(** The identifier pattern as the specification words it: letters,
    digits and underscore only, not starting with a digit. *)
Fixpoint all_word (s : string) : bool :=
  match s with
  | EmptyString => true
  | String c rest => is_word c && all_word rest
  end.

Definition is_identifier (s : string) : bool :=
  match s with
  | EmptyString => false
  | String c rest => is_ident_start c && all_word rest
  end.

(** Strings of decimal digits. *)
Definition is_digit (c : Ascii.ascii) : bool := in_range 48 57 c.

Fixpoint all_digit (s : string) : bool :=
  match s with
  | EmptyString => true
  | String c rest => is_digit c && all_digit rest
  end.

Section KeyToFilename.
(** Python's builtin [hash]. *)
Variable hash : pykey → Z.

(** [str(abs(hash(key)))]. *)
Definition digest (key : pykey) : string := pretty (Z.abs (hash key)).

Definition key_to_filename (key : pykey) : string :=
  match key with
  | KStr s => if re_match_identifier s then s else digest key
  | _ => digest key
  end.
End KeyToFilename.

(** ** The store *)

Module Core.

(** What a file holds. *)
Abbreviation bytes := (list Byte.byte).

(** The outcome of [dump(value, f)] on a freshly opened file: the bytes
    written when the call returns, or the bytes that had reached the
    file when the call raised (a serializer error, or an I/O error
    raised by a write to the stream). *)
Inductive dumped :=
  | Dumped (b : bytes)
  | DumpFailed (partial : bytes).

Inductive exn :=
  | KeyError
  | TypeError
  | IOError
  | DumpError
  | LoadError.

Inductive result (A : Type) :=
  | Ok (a : A)
  | Raise (e : exn).
Arguments Ok {A} a.
Arguments Raise {A} e.

(** The name of the file that holds the list of keys. *)
Definition keyfile : string := ".keys".

(** [DEFAULT_AVAILABLE_MEMORY = 1e9] *)
Definition DEFAULT_AVAILABLE_MEMORY : Z := 1000000000.

Section Chest.
Context `{Countable K} {V : Type}.

(** The functions a [Chest] is built with, and the global [nbytes].
    [dump] is one Python function; it is applied to values and, in
    [write_keys], to the list of keys, hence its two typings here, and
    likewise [load]. *)
Variable _key_to_filename : K → string.
Variable nbytes : V → Z.
Variable dump : V → dumped.
Variable load : bytes → option V.
Variable dump_keys : list K → dumped.
Variable load_keys : bytes → option (list K).

(** [len(key)] when [key] is a tuple. *)
Variable tuple_len : K → option nat.

(** Whether ["Key not found: %s" % key] yields a string: a tuple on the
    right of [%] is the tuple of the arguments, and the formatting
    raises unless the format takes that many, here one. *)
Definition formats (key : K) : bool :=
  match tuple_len key with
  | Some n => bool_decide (n = 1)
  | None => true
  end.

(** What [raise KeyError("Key not found: %s" % key)] raises. *)
Definition missing_key_error (key : K) : exn :=
  if formats key then KeyError else TypeError.

(** [self.inmem], [self._keys], the files of the directory [self.path]
    by name, and [self.available_memory]. *)
Record chest := Chest {
  inmem : gmap K V;
  _keys : gset K;
  disk : gmap string bytes;
  available_memory : Z;
}.

Definition set_inmem (f : gmap K V → gmap K V) (s : chest) : chest :=
  Chest (f (inmem s)) (_keys s) (disk s) (available_memory s).
Definition set_keys (f : gset K → gset K) (s : chest) : chest :=
  Chest (inmem s) (f (_keys s)) (disk s) (available_memory s).
Definition set_disk (f : gmap string bytes → gmap string bytes) (s : chest)
  : chest :=
  Chest (inmem s) (_keys s) (f (disk s)) (available_memory s).

(** A method: it runs on a store, returns or raises, and leaves a
    store behind. *)
Definition M (A : Type) : Type := chest → result A * chest.

Definition ret {A} (a : A) : M A := λ s, (Ok a, s).
Definition bind {A B} (m : M A) (k : A → M B) : M B :=
  λ s, match m s with
       | (Ok a, s') => k a s'
       | (Raise e, s') => (Raise e, s')
       end.
Definition modify (f : chest → chest) : M unit := λ s, (Ok tt, f s).

Notation "m ;; k" := (bind m (λ _, k))
  (at level 100, k at level 200, right associativity).

(** [__init__]: [data] is the seed dictionary, [dir] the content of
    the directory at [path] when it exists already ([None] when no
    path is given, the fresh temporary directory being empty, or when
    the path does not exist and is created). *)
Definition __init__ (data : option (gmap K V))
    (dir : option (gmap string bytes)) (avail : option Z) : result chest :=
  let inmem0 := default ∅ data in
  let avail0 := default DEFAULT_AVAILABLE_MEMORY avail in
  match dir with
  | Some files =>
      match files !! keyfile with
      | Some b =>
          match load_keys b with
          | Some ks => Ok (Chest inmem0 (list_to_set ks) files avail0)
          | None => Raise LoadError
          end
      | None => Ok (Chest inmem0 ∅ files avail0)
      end
  | None => Ok (Chest inmem0 ∅ ∅ avail0)
  end.

(** [move_to_disk]: the file is opened for writing, hence created or
    truncated, before [self.inmem[key]] is evaluated; the entry leaves
    [inmem] only after the [with] block has ended normally. *)
Definition move_to_disk (key : K) : M unit := λ s,
  let fn := _key_to_filename key in
  match inmem s !! key with
  | None => (Raise KeyError, set_disk <[fn := []]> s)
  | Some v =>
      match dump v with
      | Dumped b => (Ok tt, set_inmem (delete key) (set_disk <[fn := b]> s))
      | DumpFailed p => (Raise DumpError, set_disk <[fn := p]> s)
      end
  end.

Definition get_from_disk (key : K) : M unit := λ s,
  match inmem s !! key with
  | Some _ => (Ok tt, s)
  | None =>
      match disk s !! _key_to_filename key with
      | None => (Raise IOError, s)
      | Some b =>
          match load b with
          | None => (Raise LoadError, s)
          | Some v => (Ok tt, set_inmem <[key := v]> s)
          end
      end
  end.

(** [sum(map(nbytes, ...))] over the items of a dict. *)
Definition sum_nbytes (items : list (K * V)) : Z :=
  foldr (λ kv acc, nbytes kv.2 + acc)%Z 0%Z items.

Definition memory_usage (s : chest) : Z :=
  sum_nbytes (map_to_list (inmem s)).

(** [sorted(self.inmem.items(), key=lambda kv: nbytes(kv[1]))]; the
    order of items of equal size is that of the dict's iteration. *)
Definition by_size (a b : K * V) : Prop := (nbytes a.2 ≤ nbytes b.2)%Z.

#[export] Instance by_size_dec : RelDecision by_size.
Proof. intros a b. unfold by_size. apply _. Defined.

Definition sorted_items (s : chest) : list (K * V) :=
  merge_sort by_size (map_to_list (inmem s)).

(** The [while] loop of [shrink]. [stack] is the list [inmem] of the
    source read from its end, so that its head is what [pop()]
    returns. *)
Fixpoint shrink_loop (stack : list (K * V)) (mem : Z) : M unit :=
  match stack with
  | [] => ret tt
  | (key, data) :: stack' =>
      λ s, if decide (mem > available_memory s)%Z
           then (move_to_disk key ;; shrink_loop stack' (mem - nbytes data)) s
           else (Ok tt, s)
  end.

Definition shrink : M unit := λ s,
  let mem := memory_usage s in
  if decide (mem < available_memory s)%Z then (Ok tt, s)
  else shrink_loop (reverse (sorted_items s)) mem s.

(** [__getitem__]: the bare [except] swallows the [KeyError] of a key
    that is not in memory; the message of the [KeyError] for a key that
    is not tracked is formatted before the exception is built. *)
Definition __getitem__ (key : K) : M V := λ s,
  match inmem s !! key with
  | Some v => (Ok v, s)
  | None =>
      if decide (key ∈ _keys s) then
        (get_from_disk key ;;
         λ s1, match inmem s1 !! key with
               | None => (Raise KeyError, s1)
               | Some res => (shrink ;; ret res) s1
               end) s
      else (Raise (missing_key_error key), s)
  end.

Definition __delitem__ (key : K) : M unit := λ s,
  let s1 := if decide (key ∈ dom (inmem s))
            then set_inmem (delete key) s else s in
  let fn := _key_to_filename key in
  let s2 := if decide (is_Some (disk s1 !! fn))
            then set_disk (delete fn) s1 else s1 in
  if decide (key ∈ _keys s2)
  then (Ok tt, set_keys (λ ks, ks ∖ {[key]}) s2)
  else (Raise KeyError, s2).

Definition __setitem__ (key : K) (value : V) : M unit := λ s,
  ((if decide (key ∈ _keys s) then __delitem__ key else ret tt) ;;
   modify (set_inmem <[key := value]>) ;;
   modify (set_keys (λ ks, ks ∪ {[key]})) ;;
   shrink) s.

(** [__iter__], [__len__], [__contains__] *)
Definition __iter__ (s : chest) : gset K := _keys s.
Definition __len__ (s : chest) : nat := size (_keys s).
Definition __contains__ (key : K) (s : chest) : bool :=
  bool_decide (key ∈ _keys s).

Definition write_keys : M unit := λ s,
  match dump_keys (elements (_keys s)) with
  | Dumped b => (Ok tt, set_disk <[keyfile := b]> s)
  | DumpFailed p => (Raise DumpError, set_disk <[keyfile := p]> s)
  end.

(** The [for] loop of [flush], over [list(self.inmem)]. *)
Fixpoint flush_loop (ks : list K) : M unit :=
  match ks with
  | [] => ret tt
  | key :: ks' => move_to_disk key ;; flush_loop ks'
  end.

Definition flush : M unit := λ s,
  (flush_loop (map_to_list (inmem s)).*1 ;; write_keys) s.

(** *** What the specification observes *)

(** The key is resident in memory: [key in self.inmem]. *)
Definition in_memory (key : K) (s : chest) : Prop :=
  is_Some (inmem s !! key).

(** The key has a backing file: [os.path.exists(self.key_to_filename(key))]. *)
Definition on_disk (key : K) (s : chest) : Prop :=
  is_Some (disk s !! _key_to_filename key).

(** [keys()] is the union of the keys in memory and the keys on disk. *)
Definition set_equivalence (s : chest) : Prop :=
  ∀ key, key ∈ __iter__ s ↔ in_memory key s ∨ on_disk key s.

(** No tracked key is both in memory and on disk. *)
Definition mutual_exclusion (s : chest) : Prop :=
  ∀ key, key ∈ __iter__ s → ¬ (in_memory key s ∧ on_disk key s).

(** Every key in memory is tracked. *)
Definition inmem_tracked (s : chest) : Prop :=
  ∀ key, in_memory key s → key ∈ _keys s.

(** The store with the entry of [key] removed: from memory, from the
    directory and from the set of keys. *)
Definition removed (key : K) (s : chest) : chest :=
  Chest (delete key (inmem s)) (_keys s ∖ {[key]})
        (delete (_key_to_filename key) (disk s)) (available_memory s).

(** The three partitions agree: what is in memory is tracked, what
    has a file is tracked, and what is tracked is in memory or has a
    file. *)
Definition consistent (s : chest) : Prop :=
  (∀ key, in_memory key s → key ∈ _keys s) ∧
  (∀ key, on_disk key s → key ∈ _keys s) ∧
  (∀ key, key ∈ _keys s → in_memory key s ∨ on_disk key s).

(** The key is in memory and [dump] does not raise on its value. *)
Definition dumps (s : chest) (key : K) : Prop :=
  ∃ v b, inmem s !! key = Some v ∧ dump v = Dumped b.

(** What a read of [key] looks up: the entry in memory if there is
    one, else, for a tracked key, what [load] makes of its file. *)
Definition content (s : chest) (key : K) : option V :=
  match inmem s !! key with
  | Some v => Some v
  | None =>
      if decide (key ∈ _keys s)
      then disk s !! _key_to_filename key ≫= load
      else None
  end.

(** Every file at the path of a key holds a complete dump. *)
Definition files_dumped (s : chest) : Prop :=
  ∀ key b, disk s !! _key_to_filename key = Some b → ∃ v, dump v = Dumped b.

(** The calls of the mapping interface, and [flush]. *)
Inductive call :=
  | Read (key : K)
  | Write (key : K) (value : V)
  | Delete (key : K)
  | Flush.

(** The store a call leaves behind, whether it returns or raises. *)
Definition after (c : call) (s : chest) : chest :=
  match c with
  | Read key => (__getitem__ key s).2
  | Write key value => (__setitem__ key value s).2
  | Delete key => (__delitem__ key s).2
  | Flush => (flush s).2
  end.

(** [Chest(available_memory=avail)]: no seed, a fresh directory. *)
Definition fresh (avail : option Z) : chest :=
  Chest ∅ ∅ ∅ (default DEFAULT_AVAILABLE_MEMORY avail).

(** The stores a caller can observe, starting from a fresh one. *)
Inductive reachable : chest → Prop :=
  | reachable_fresh avail : reachable (fresh avail)
  | reachable_after c s : reachable s → reachable (after c s).

(** The store after a sequence of calls. *)
Definition after_all (cs : list call) (s : chest) : chest :=
  foldl (λ s c, after c s) s cs.

End Chest.

Arguments chest K {_ _} V.
Arguments M K {_ _} V A.
Arguments call K V : clear implicits.

End Core.
Import Core.

(** ** A concrete store

    Integer keys and byte arrays as values: [nbytes] of a byte array is
    its length, [dump] writes the bytes as they are and [load] reads
    them back. *)
Module Ex.
Definition nbytes (v : bytes) : Z := Z.of_nat (length v).
Definition dump (v : bytes) : dumped := Dumped v.
Definition load (b : bytes) : option bytes := Some b.

(** A [dump] onto a stream that raises once four bytes are written. *)
Definition dump_short (v : bytes) : dumped :=
  if decide (length v ≤ 4) then Dumped v else DumpFailed (take 4 v).

(** [dump] on the list of keys: one byte per key. *)
Definition dump_keys (ks : list Z) : dumped :=
  Dumped ((λ k, default Byte.x00 (Byte.of_N (Z.to_N k `mod` 256))) <$> ks).

(** Integer keys are not tuples. *)
Definition not_tuple (k : Z) : option nat := None.

(** Keys that are tuples of [str]: their length. *)
Definition str_tuple_len (k : list string) : option nat := Some (length k).

(** [key_to_filename=lambda k: 'k' + str(k)] *)
Definition name_of (k : Z) : string := "k" +:+ pretty k.

(** [key_to_filename=lambda k: str(abs(k))], which is what the default
    [key_to_filename] yields on CPython for small integers other than
    -1, the hash of such an integer being the integer itself. *)
Definition abs_name (k : Z) : string := pretty (Z.abs k).

(** [n] bytes, all equal to [b]. *)
Definition blob (b : Byte.byte) (n : nat) : bytes := replicate n b.

(** A fresh store with a budget of 10 bytes, then: two writes, the
    second of which spills key 2; key 1 deleted; key 2 read back. *)
Definition reloaded : chest Z bytes :=
  after_all name_of nbytes dump load dump_keys not_tuple
    [Write 1%Z (blob Byte.x61 6); Write 2%Z (blob Byte.x62 7);
     Delete 1%Z; Read 2%Z]
    (fresh (Some 10%Z)).

(** [Chest(data={-5: 15 bytes}, available_memory=10,
    key_to_filename=lambda k: str(abs(k)))] *)
Definition seeded : chest Z bytes :=
  Chest {[ (-5)%Z := blob Byte.x61 15 ]} ∅ ∅ 10.

(** A store with a budget of 10 bytes in which key 5 has been spilled
    to the file ["5"]. *)
Definition spilled : chest Z bytes :=
  Chest ∅ {[ 5%Z ]} {[ "5" := blob Byte.x62 20 ]} 10.

(** A store with key 7 tracked and in memory. *)
Definition holding : chest Z bytes :=
  Chest {[ 7%Z := blob Byte.x63 6 ]} {[ 7%Z ]} ∅ 10.

(** [load] on the file of keys written by [dump_keys]. *)
Definition load_keys (b : bytes) : option (list Z) :=
  Some ((λ x, Z.of_N (Byte.to_N x)) <$> b).

(** A hash that is the identity on integers, as CPython's is on small
    ones. *)
Definition int_hash (key : pykey) : Z :=
  match key with
  | KInt n => n
  | _ => 0%Z
  end.

(** A store over its budget of 10 bytes: keys 1, 2 and 3 hold 4, 9
    and 6 bytes. *)
Definition crowded : chest Z bytes :=
  Chest {[ 1%Z := blob Byte.x61 4; 2%Z := blob Byte.x62 9;
           3%Z := blob Byte.x63 6 ]}
        {[ 1%Z; 2%Z; 3%Z ]} ∅ 10.

(** A store that tracks key 9 without an entry or a file for it. *)
Definition dangling : chest Z bytes :=
  Chest ∅ {[ 9%Z ]} ∅ 10.
End Ex.

(** ** Properties of [key_to_filename] *)

Lemma all_word_match_end s : all_word s = true → match_word_star_end s = true.
Proof.
  induction s as [|c s IH]; simpl; [done|].
  intros [Hc Hs]%andb_true_iff. rewrite Hc. auto.
Qed.

(** A match of the pattern is an identifier, or an identifier followed
    by one newline. *)
Lemma match_word_star_end_spec s :
  match_word_star_end s = true ↔
  all_word s = true ∨
  ∃ s', s = s' +:+ String newline EmptyString ∧ all_word s' = true.
Proof.
  induction s as [|c s IH]; simpl.
  - split; [by left|done].
  - destruct (is_word c) eqn:Hc; simpl.
    + rewrite IH. split.
      * intros [?|(s' & -> & ?)]; [by left|right].
        exists (String c s'). simpl. by rewrite Hc.
      * intros [?|(s' & Hs & Hw)]; [by left|right].
        destruct s' as [|c' s'']; simpl in *.
        -- injection Hs as -> ->. done.
        -- injection Hs as -> ->. apply andb_true_iff in Hw as [_ ?]. eauto.
    + split.
      * intros [Hn He]%andb_true_iff.
        apply Ascii.eqb_eq in Hn as ->. apply String.eqb_eq in He as ->.
        right. by exists EmptyString.
      * intros [?|(s' & Hs & Hw)]; [done|].
        destruct s' as [|c' s'']; simpl in *.
        -- injection Hs as -> ->. done.
        -- injection Hs as -> ->. by rewrite Hc in Hw.
Qed.

Lemma re_match_identifier_spec s :
  re_match_identifier s = true ↔
  is_identifier s = true ∨
  ∃ s', s = s' +:+ String newline EmptyString ∧ is_identifier s' = true.
Proof.
  destruct s as [|c s]; simpl.
  - split; [done|]. intros [?|(s' & Hs & Hi)]; [done|].
    by destruct s'.
  - rewrite !andb_true_iff, match_word_star_end_spec. split.
    + intros [Hc [?|(s' & -> & ?)]]; [by left|right].
      exists (String c s'). simpl. by rewrite Hc.
    + intros [[??]|(s' & Hs & Hi)]; [by auto|].
      destruct s' as [|c' s'']; simpl in *; [done|].
      injection Hs as -> ->. apply andb_true_iff in Hi as [??]. eauto.
Qed.

(** An identifier is its own file name. *)
Lemma key_to_filename_identifier hash s :
  is_identifier s = true → key_to_filename hash (KStr s) = s.
Proof.
  intros Hi. simpl.
  assert (re_match_identifier s = true) as ->; [|done].
  apply re_match_identifier_spec. by left.
Qed.

(** A key that is not a [str] is named after its hash. *)
Lemma key_to_filename_not_str hash key :
  (∀ s, key ≠ KStr s) → key_to_filename hash key = digest hash key.
Proof. destruct key; [intros Hs; by destruct (Hs s)|done..]. Qed.

(** A [str] the pattern rejects is named after its hash. *)
Lemma key_to_filename_no_match hash s :
  re_match_identifier s = false →
  key_to_filename hash (KStr s) = digest hash (KStr s).
Proof. intros Hm. simpl. by rewrite Hm. Qed.

(** The digest is a string of decimal digits. *)
Lemma pretty_N_char_digit x : is_digit (pretty_N_char x) = true.
Proof. unfold pretty_N_char. by repeat case_match. Qed.

Lemma pretty_N_go_digits x acc :
  all_digit acc = true → all_digit (pretty_N_go x acc) = true.
Proof.
  revert acc. induction (N.lt_wf_0 x) as [x _ IH]; intros acc Hacc.
  destruct (decide (x = 0%N)) as [->|Hx]; [by rewrite pretty_N_go_0|].
  rewrite pretty_N_go_step by lia.
  apply IH; [apply N.div_lt; lia|].
  simpl. by rewrite pretty_N_char_digit.
Qed.

Lemma digest_all_digit hash key : all_digit (digest hash key) = true.
Proof.
  unfold digest, pretty, pretty_Z.
  destruct (Z.abs (hash key)) as [|p|p] eqn:Hh; [done| |lia].
  unfold pretty, pretty_positive, pretty, pretty_N.
  case_decide; [done|]. by apply pretty_N_go_digits.
Qed.

(** C8. The claim: a string maps to itself exactly when it is an
    identifier (letters, digits, underscore, not starting with a digit)
    and every other key maps to the decimal rendering of the absolute
    value of its hash. The code at the key ["a\n"]: the string is not an
    identifier, yet [$] matches before its final newline and the file
    name is the key itself, newline included, not the digest, whatever
    the hash. *)
Theorem key_to_filename_trailing_newline :
  ∀ hash : pykey → Z,
    let key := String (Ascii.ascii_of_nat 97) (String newline EmptyString) in
    is_identifier key = false ∧
    re_match_identifier key = true ∧
    key_to_filename hash (KStr key) = key ∧
    key_to_filename hash (KStr key) ≠ digest hash (KStr key).
Proof.
  intros hash key. split_and!; [done..|].
  change (key_to_filename hash (KStr key)) with key.
  intros Heq.
  pose proof (digest_all_digit hash (KStr key)) as Hd.
  rewrite <-Heq in Hd. discriminate Hd.
Qed.

(** ** Properties of the store *)

Section ChestTheory.
Context `{Countable K} {V : Type}.
Variable fn : K → string.
Variable nbytes : V → Z.
Variable dump : V → dumped.
Variable load : bytes → option V.
Variable dump_keys : list K → dumped.
Variable load_keys : bytes → option (list K).
Variable tuple_len : K → option nat.

Implicit Types (s : chest K V) (key k : K) (v value : V) (ks : list K).

Set Default Proof Using "Type".

Local Abbreviation move_to_disk := (move_to_disk fn dump).
Local Abbreviation get_from_disk := (get_from_disk fn load).
Local Abbreviation flush_loop := (flush_loop fn dump).
Local Abbreviation shrink_loop := (shrink_loop fn nbytes dump).
Local Abbreviation shrink := (shrink fn nbytes dump).
Local Abbreviation __getitem__ := (__getitem__ fn nbytes dump load tuple_len).
Local Abbreviation __setitem__ := (__setitem__ fn nbytes dump).
Local Abbreviation __delitem__ := (__delitem__ fn).
Local Abbreviation write_keys := (write_keys dump_keys).
Local Abbreviation flush := (flush fn dump dump_keys).
Local Abbreviation memory_usage := (memory_usage nbytes).
Local Abbreviation after := (after fn nbytes dump load dump_keys tuple_len).
Local Abbreviation reachable :=
  (reachable fn nbytes dump load dump_keys tuple_len).
Local Abbreviation on_disk := (on_disk fn).
Local Abbreviation removed := (removed fn).
Local Abbreviation dumps := (dumps dump).
Local Abbreviation consistent := (consistent fn).
Local Abbreviation set_equivalence := (set_equivalence fn).
Local Abbreviation mutual_exclusion := (mutual_exclusion fn).
Local Abbreviation fresh := (fresh (K:=K) (V:=V)).
Local Abbreviation __init__ := (__init__ (V:=V) load_keys).
Local Abbreviation formats := (formats tuple_len).
Local Abbreviation missing_key_error := (missing_key_error tuple_len).

(** *** Moving one key to disk *)

Lemma move_to_disk_frame key s :
  _keys (move_to_disk key s).2 = _keys s ∧
  available_memory (move_to_disk key s).2 = available_memory s.
Proof.
  unfold Core.move_to_disk.
  destruct (inmem s !! key); [destruct (dump _)|]; done.
Qed.

Lemma move_to_disk_Ok key s v b :
  inmem s !! key = Some v → dump v = Dumped b →
  move_to_disk key s
  = (Ok tt, set_inmem (delete key) (set_disk <[fn key := b]> s)).
Proof. unfold Core.move_to_disk. by intros -> ->. Qed.

(** What [move_to_disk] does to the entries in memory: nothing when it
    raises, and the removal of [key] when it returns. *)
Lemma move_to_disk_inmem key s :
  match move_to_disk key s with
  | (Ok _, s') => is_Some (inmem s !! key) ∧ inmem s' = delete key (inmem s)
  | (Raise e, s') => inmem s' = inmem s
  end.
Proof.
  unfold Core.move_to_disk.
  destruct (inmem s !! key) eqn:?; [destruct (dump _)|]; eauto.
Qed.

(** What [move_to_disk] does to the files: only the file of [key]
    changes, and it then holds what [dump] wrote of the value of
    [key], or nothing if [key] is not in memory. *)
Lemma move_to_disk_disk key s :
  ∃ c, disk (move_to_disk key s).2 = <[fn key := c]> (disk s) ∧
       match inmem s !! key with
       | Some v => dump v = Dumped c ∨ dump v = DumpFailed c
       | None => c = []
       end.
Proof.
  unfold Core.move_to_disk.
  destruct (inmem s !! key); [destruct (dump _) eqn:?|]; eauto.
Qed.

(** *** Moving a list of keys to disk *)

Lemma flush_loop_cons key ks s :
  flush_loop (key :: ks) s
  = match move_to_disk key s with
    | (Ok _, s') => flush_loop ks s'
    | (Raise e, s') => (Raise e, s')
    end.
Proof. done. Qed.

Lemma flush_loop_frame ks s :
  _keys (flush_loop ks s).2 = _keys s ∧
  available_memory (flush_loop ks s).2 = available_memory s.
Proof.
  revert s. induction ks as [|key ks IH]; intros s; [done|].
  rewrite flush_loop_cons.
  pose proof (move_to_disk_frame key s) as [Hk Ha].
  destruct (move_to_disk key s) as [[[]|e] s']; simpl in *; [|done].
  destruct (IH s') as [-> ->]. done.
Qed.

(** The loop of [shrink] moves a prefix of its stack to disk. *)
Lemma shrink_loop_flush_loop stack mem s :
  ∃ n, shrink_loop stack mem s = flush_loop (take n stack.*1) s.
Proof.
  revert mem s. induction stack as [|[key data] stack IH]; intros mem s.
  { by exists 0. }
  simpl. case_decide; [|by exists 0].
  unfold bind. destruct (move_to_disk key s) as [[[]|e] s'] eqn:Hm.
  - destruct (IH (mem - nbytes data)%Z s') as [n Hn].
    exists (S n). simpl. unfold bind. by rewrite Hm.
  - exists 1. simpl. unfold bind. by rewrite Hm.
Qed.

(** Entries only leave memory, and only those of the listed keys. *)
Lemma flush_loop_inmem ks s k :
  inmem (flush_loop ks s).2 !! k = inmem s !! k ∨
  (k ∈ ks ∧ inmem (flush_loop ks s).2 !! k = None).
Proof.
  revert s. induction ks as [|key ks IH]; intros s; [by left|].
  rewrite flush_loop_cons.
  pose proof (move_to_disk_inmem key s) as Hm.
  destruct (move_to_disk key s) as [[[]|e] s']; simpl in *.
  - destruct Hm as [_ Hm].
    destruct (IH s') as [Hk|[Hk Hn]].
    + destruct (decide (key = k)) as [->|Hne].
      * right. split; [left|]. by rewrite Hk, Hm, lookup_delete_eq.
      * left. by rewrite Hk, Hm, lookup_delete_ne.
    + right. split; [by right|done].
  - left. by rewrite Hm.
Qed.

(** With distinct keys, all of them in memory, the loop never raises
    [KeyError]: it returns, or [dump] has raised. *)
Lemma flush_loop_result ks s :
  NoDup ks → (∀ k, k ∈ ks → is_Some (inmem s !! k)) →
  (flush_loop ks s).1 = Ok tt ∨ (flush_loop ks s).1 = Raise DumpError.
Proof.
  revert s. induction ks as [|key ks IH]; intros s Hnd Hin; [by left|].
  rewrite flush_loop_cons.
  apply NoDup_cons in Hnd as [Hkey Hnd].
  destruct (Hin key) as [v Hv]; [by left|].
  unfold Core.move_to_disk. rewrite Hv.
  destruct (dump v); [|by right].
  apply IH; [done|]. intros k Hk. simpl.
  rewrite lookup_delete_ne by (intros ->; done).
  apply Hin. by right.
Qed.

(** Every file is either as before, or what [dump] wrote of a value
    that was in memory under a listed key with that file name. *)
Lemma flush_loop_disk ks s p c :
  NoDup ks → (∀ k, k ∈ ks → is_Some (inmem s !! k)) →
  disk (flush_loop ks s).2 !! p = Some c →
  disk s !! p = Some c ∨
  ∃ k v, k ∈ ks ∧ fn k = p ∧ inmem s !! k = Some v ∧
         (dump v = Dumped c ∨ dump v = DumpFailed c).
Proof.
  revert s. induction ks as [|key ks IH]; intros s Hnd Hin Hc; [by left|].
  rewrite flush_loop_cons in Hc.
  apply NoDup_cons in Hnd as [Hkey Hnd].
  destruct (Hin key) as [v Hv]; [by left|].
  assert (∀ c', (dump v = Dumped c' ∨ dump v = DumpFailed c') →
                <[fn key := c']> (disk s) !! p = Some c →
                disk s !! p = Some c ∨
                ∃ k v, k ∈ key :: ks ∧ fn k = p ∧ inmem s !! k = Some v ∧
                       (dump v = Dumped c ∨ dump v = DumpFailed c)) as Hstep.
  { intros c' Hd. rewrite lookup_insert. case_decide as Hp.
    - intros [= ->]. right. exists key, v. split_and!; [by left|done..].
    - by left. }
  revert Hc. unfold Core.move_to_disk. rewrite Hv.
  destruct (dump v) as [b|b] eqn:Hd; simpl; [|by eauto].
  intros Hc. apply IH in Hc; [|done|].
  - destruct Hc as [Hc|(k & v' & Hk & Hp & Hv' & Hd')].
    + simpl in Hc. apply (Hstep b); eauto.
    + right. exists k, v'. split_and!; [by right|done| |done].
      simpl in Hv'. by apply lookup_delete_Some in Hv' as [_ ?].
  - intros k Hk. simpl. rewrite lookup_delete_ne by (intros ->; done).
    apply Hin. by right.
Qed.

(** No file disappears. *)
Lemma flush_loop_disk_mono ks s p :
  is_Some (disk s !! p) → is_Some (disk (flush_loop ks s).2 !! p).
Proof.
  revert s. induction ks as [|key ks IH]; intros s Hp; [done|].
  rewrite flush_loop_cons.
  destruct (move_to_disk_disk key s) as (c & Hd & _).
  assert (is_Some (disk (move_to_disk key s).2 !! p)) as Hp'.
  { rewrite Hd, lookup_insert. by case_decide. }
  destruct (move_to_disk key s) as [[[]|e] s']; simpl in *; auto.
Qed.

(** *** [shrink] *)

(** The stack of [shrink] lists the entries in memory, each once. *)
Lemma shrink_stack_perm s :
  reverse (sorted_items nbytes s) ≡ₚ map_to_list (inmem s).
Proof.
  unfold sorted_items. by rewrite reverse_Permutation, merge_sort_Permutation.
Qed.

(** [shrink] moves to disk a list of distinct keys, all in memory. *)
Lemma shrink_flush_loop s :
  ∃ ks, NoDup ks ∧ (∀ k, k ∈ ks → is_Some (inmem s !! k)) ∧
        shrink s = flush_loop ks s.
Proof.
  unfold Core.shrink. case_decide.
  { exists []. split_and!; [constructor|by intros ? ?%elem_of_nil|done]. }
  destruct (shrink_loop_flush_loop (reverse (sorted_items nbytes s))
              (memory_usage s) s) as [n Hn].
  eexists. split_and!; [| |exact Hn].
  - eapply sublist_NoDup; [|apply sublist_take].
    rewrite shrink_stack_perm. apply NoDup_fst_map_to_list.
  - intros k Hk%subseteq_take.
    rewrite shrink_stack_perm in Hk.
    apply list_elem_of_fmap in Hk as ([k' v] & -> & Hkv).
    apply elem_of_map_to_list in Hkv. by eexists.
Qed.

Lemma shrink_frame s :
  _keys (shrink s).2 = _keys s ∧
  available_memory (shrink s).2 = available_memory s.
Proof.
  destruct (shrink_flush_loop s) as (ks & _ & _ & ->).
  apply flush_loop_frame.
Qed.

(** [shrink] returns, or [dump] has raised. *)
Lemma shrink_result s :
  (shrink s).1 = Ok tt ∨ (shrink s).1 = Raise DumpError.
Proof.
  destruct (shrink_flush_loop s) as (ks & ? & ? & ->).
  by apply flush_loop_result.
Qed.

(** At the budget exactly, [shrink] spills nothing. *)
Lemma shrink_at_budget s :
  memory_usage s = available_memory s → shrink s = (Ok tt, s).
Proof.
  intros Hm. unfold Core.shrink. rewrite Hm.
  case_decide; [lia|].
  destruct (reverse _) as [|[key data] stack]; [done|].
  simpl. case_decide; [lia|done].
Qed.

(** *** [__delitem__] *)

Lemma delitem_state key s :
  inmem (__delitem__ key s).2 = delete key (inmem s) ∧
  disk (__delitem__ key s).2 = delete (fn key) (disk s) ∧
  available_memory (__delitem__ key s).2 = available_memory s.
Proof.
  unfold Core.__delitem__.
  destruct (decide (key ∈ dom (inmem s))) as [Hm|Hm]; simpl;
    destruct (decide (is_Some (disk s !! fn key))) as [Hf|Hf]; simpl;
    case_decide; simpl; split_and!; try done;
    symmetry; apply delete_id;
    first [by apply not_elem_of_dom | by apply eq_None_not_Some].
Qed.

Lemma delitem_tracked key s :
  key ∈ _keys s → __delitem__ key s = (Ok tt, removed key s).
Proof.
  intros Hk.
  pose proof (delitem_state key s) as (Hi & Hd & Ha).
  revert Hi Hd Ha. unfold Core.__delitem__.
  set (s2 := if decide (is_Some (disk _ !! fn key)) then _ else _).
  assert (_keys s2 = _keys s) as Hk2.
  { unfold s2. by repeat case_decide. }
  rewrite decide_True by by rewrite Hk2.
  simpl. intros Hi Hd Ha. f_equal. unfold removed, set_keys.
  by rewrite Hi, Hd, Ha, Hk2.
Qed.

Lemma delitem_untracked key s :
  key ∉ _keys s →
  ∃ s', __delitem__ key s = (Raise KeyError, s') ∧
        _keys s' = _keys s ∧
        inmem s' = delete key (inmem s) ∧
        disk s' = delete (fn key) (disk s).
Proof.
  intros Hk.
  pose proof (delitem_state key s) as (Hi & Hd & Ha).
  revert Hi Hd Ha. unfold Core.__delitem__.
  set (s2 := if decide (is_Some (disk _ !! fn key)) then _ else _).
  assert (_keys s2 = _keys s) as Hk2.
  { unfold s2. by repeat case_decide. }
  rewrite decide_False by by rewrite Hk2.
  simpl. intros Hi Hd Ha. by exists s2.
Qed.

(** *** [get_from_disk] and [__getitem__] *)

Lemma get_from_disk_result key s :
  match get_from_disk key s with
  | (Ok _, s') =>
      is_Some (inmem s' !! key) ∧ _keys s' = _keys s ∧ disk s' = disk s ∧
      available_memory s' = available_memory s
  | (Raise e, s') => s' = s ∧ (e = IOError ∨ e = LoadError)
  end.
Proof.
  unfold Core.get_from_disk.
  destruct (inmem s !! key) eqn:Hk; [by rewrite Hk|].
  destruct (disk s !! fn key); [|by auto].
  destruct (load _); [|by auto].
  simpl. by rewrite lookup_insert_eq.
Qed.

Lemma getitem_in_memory key s v :
  inmem s !! key = Some v → __getitem__ key s = (Ok v, s).
Proof. unfold Core.__getitem__. by intros ->. Qed.

Lemma getitem_untracked key s :
  key ∉ _keys s → inmem s !! key = None →
  __getitem__ key s = (Raise (missing_key_error key), s).
Proof.
  intros Hk Hm. unfold Core.__getitem__. by rewrite Hm, decide_False.
Qed.

(** The read of a tracked key raises neither [KeyError] nor
    [TypeError]. *)
Lemma getitem_tracked_error key s e s' :
  key ∈ _keys s → inmem s !! key = None →
  __getitem__ key s = (Raise e, s') →
  e = IOError ∨ e = LoadError ∨ e = DumpError.
Proof.
  intros Hk Hm. unfold Core.__getitem__. rewrite Hm, decide_True by done.
  unfold bind.
  pose proof (get_from_disk_result key s) as Hg.
  destruct (get_from_disk key s) as [[[]|e0] s1]; simpl.
  - destruct Hg as ([res ->] & _).
    pose proof (shrink_result s1) as Hs.
    destruct (shrink s1) as [[[]|e1] s2]; simpl in *; [done|].
    destruct Hs as [?|[= ->]]; [done|]. intros [= <- _]. auto.
  - destruct Hg as [_ [-> | ->]]; intros [= <- _]; auto.
Qed.

Lemma getitem_KeyError key s :
  (__getitem__ key s).1 = Raise KeyError ↔
  (key ∉ _keys s) ∧ inmem s !! key = None ∧ formats key = true.
Proof.
  destruct (inmem s !! key) as [v|] eqn:Hm.
  { rewrite (getitem_in_memory key s v Hm). simpl.
    split; [done|by intros (_ & ? & _)]. }
  destruct (decide (key ∈ _keys s)) as [Hk|Hk].
  - split; [|by intros [? _]]. intros He.
    destruct (__getitem__ key s) as [r s'] eqn:Hg. simpl in He. subst r.
    by destruct (getitem_tracked_error key s _ _ Hk Hm Hg) as [?|[?|?]].
  - rewrite (getitem_untracked key s Hk Hm). simpl.
    unfold Core.missing_key_error. destruct (formats key).
    + by split.
    + split; [done|by intros (_ & _ & ?)].
Qed.

Lemma getitem_TypeError key s :
  (__getitem__ key s).1 = Raise TypeError ↔
  (key ∉ _keys s) ∧ inmem s !! key = None ∧ formats key = false.
Proof.
  destruct (inmem s !! key) as [v|] eqn:Hm.
  { rewrite (getitem_in_memory key s v Hm). simpl.
    split; [done|by intros (_ & ? & _)]. }
  destruct (decide (key ∈ _keys s)) as [Hk|Hk].
  - split; [|by intros [? _]]. intros He.
    destruct (__getitem__ key s) as [r s'] eqn:Hg. simpl in He. subst r.
    by destruct (getitem_tracked_error key s _ _ Hk Hm Hg) as [?|[?|?]].
  - rewrite (getitem_untracked key s Hk Hm). simpl.
    unfold Core.missing_key_error. destruct (formats key).
    + split; [done|by intros (_ & _ & ?)].
    + by split.
Qed.

Lemma init_fresh avail :
  __init__ None None avail = Ok (fresh avail).
Proof. done. Qed.

(** *** Errors *)

(** C9. If [dump] raises while [move_to_disk] writes the value of a
    key, the call raises and the entries in memory are as before, the
    entry of the key included; more generally a raising [move_to_disk]
    leaves the entries in memory untouched, the entry being removed
    only once the write has completed. The file is left with what had
    been written. *)
Theorem move_to_disk_failure_keeps_inmem key s v partial :
  inmem s !! key = Some v → dump v = DumpFailed partial →
  (∃ s', move_to_disk key s = (Raise DumpError, s') ∧
         inmem s' = inmem s ∧ inmem s' !! key = Some v ∧
         _keys s' = _keys s ∧
         disk s' = <[fn key := partial]> (disk s)) ∧
  (∀ k e s', move_to_disk k s = (Raise e, s') → inmem s' = inmem s) ∧
  (∀ k s', move_to_disk k s = (Ok tt, s') →
           ∃ v' b, inmem s !! k = Some v' ∧ dump v' = Dumped b ∧
                   disk s' !! fn k = Some b ∧
                   inmem s' = delete k (inmem s)).
Proof.
  intros Hv Hd. split_and!.
  - unfold Core.move_to_disk. rewrite Hv, Hd. eexists. by split_and!.
  - intros k e s' Hm. pose proof (move_to_disk_inmem k s) as Hi.
    by rewrite Hm in Hi.
  - intros k s'. unfold Core.move_to_disk.
    destruct (inmem s !! k) as [v'|]; [|done].
    destruct (dump v') as [b|] eqn:Hb; [|done].
    intros [= <-]. exists v', b. simpl.
    by rewrite lookup_insert_eq.
Qed.

(** C10. [__delitem__] on a key that is not tracked raises [KeyError]
    and leaves the set of keys as it was, but not the directory: a
    file at the path of the key is removed before the error is
    raised. *)
Theorem delitem_untracked_removes_file key s :
  key ∉ _keys s →
  ∃ s', __delitem__ key s = (Raise KeyError, s') ∧
        _keys s' = _keys s ∧
        disk s' = delete (fn key) (disk s) ∧
        (is_Some (disk s !! fn key) →
         disk s' !! fn key = None ∧ disk s' ≠ disk s).
Proof.
  intros Hk.
  destruct (delitem_untracked key s Hk) as (s' & Hr & Hks & _ & Hd).
  exists s'. split_and!; [done..|].
  intros [c Hc]. rewrite Hd, lookup_delete_eq. split; [done|].
  intros Heq. by rewrite <-Heq, lookup_delete_eq in Hc.
Qed.

(** What holds of the errors for a missing key: [__getitem__] raises
    [KeyError] exactly when the key is neither tracked nor in memory
    and the message of the error can be formatted, and [TypeError]
    exactly when it is neither and the message cannot; [__delitem__]
    raises [KeyError] exactly when the key is not tracked and returns
    otherwise. *)
Lemma missing_key_errors key s :
  ((__getitem__ key s).1 = Raise KeyError ↔
   (key ∉ __iter__ s) ∧ ¬ in_memory key s ∧ formats key = true) ∧
  ((__getitem__ key s).1 = Raise TypeError ↔
   (key ∉ __iter__ s) ∧ ¬ in_memory key s ∧ formats key = false) ∧
  ((__delitem__ key s).1 = Raise KeyError ↔ key ∉ __iter__ s) ∧
  ((__delitem__ key s).1 = Ok tt ↔ key ∈ __iter__ s).
Proof.
  unfold __iter__, in_memory. split_and!.
  - by rewrite getitem_KeyError, eq_None_not_Some.
  - by rewrite getitem_TypeError, eq_None_not_Some.
  - destruct (decide (key ∈ _keys s)) as [Hk|Hk].
    + rewrite (delitem_tracked _ _ Hk). simpl. by split.
    + destruct (delitem_untracked _ _ Hk) as (s' & -> & _). simpl. by split.
  - destruct (decide (key ∈ _keys s)) as [Hk|Hk].
    + by rewrite (delitem_tracked _ _ Hk).
    + destruct (delitem_untracked _ _ Hk) as (s' & -> & _). simpl. by split.
Qed.

(** C6. A write to a tracked key first removes the prior entry, from
    memory, from the directory and from the set of keys, then inserts
    the new value and shrinks. A file found at the path of the key
    after the write is therefore never the prior one: it holds what
    this write's [shrink] dumped of a value that is in memory after
    the insertion. *)
Theorem setitem_removes_prior_entry key value s :
  key ∈ _keys s →
  let inserted := set_keys (λ tracked, tracked ∪ {[key]})
                    (set_inmem <[key := value]> (removed key s)) in
  __delitem__ key s = (Ok tt, removed key s) ∧
  ¬ in_memory key (removed key s) ∧
  ¬ on_disk key (removed key s) ∧
  (key ∉ _keys (removed key s)) ∧
  __setitem__ key value s = shrink inserted ∧
  (∀ c, disk (__setitem__ key value s).2 !! fn key = Some c →
        ∃ k v, fn k = fn key ∧ inmem inserted !! k = Some v ∧
               (dump v = Dumped c ∨ dump v = DumpFailed c)).
Proof.
  intros Hk inserted.
  assert (__setitem__ key value s = shrink inserted) as Hset.
  { unfold Core.__setitem__, bind, modify.
    rewrite decide_True by done. by rewrite (delitem_tracked _ _ Hk). }
  split_and!.
  - by apply delitem_tracked.
  - unfold in_memory, removed. simpl. rewrite lookup_delete_eq.
    by intros [??].
  - unfold Core.on_disk, removed. simpl. rewrite lookup_delete_eq.
    by intros [??].
  - unfold removed. simpl. apply not_elem_of_difference. right.
    by apply elem_of_singleton.
  - done.
  - intros c. rewrite Hset.
    destruct (shrink_flush_loop inserted) as (ks & Hnd & Hin & ->).
    intros Hc. apply flush_loop_disk in Hc as [Hc|Hc]; [| |done..].
    + unfold inserted, removed in Hc. simpl in Hc.
      by rewrite lookup_delete_eq in Hc.
    + destruct Hc as (k & v & _ & Hfn & Hv & Hd). by exists k, v.
Qed.

(** *** When [dump] does not raise *)

(** A file that is the file of no listed key is left alone. *)
Lemma flush_loop_disk_frame ks s p :
  (∀ k, k ∈ ks → fn k ≠ p) →
  disk (flush_loop ks s).2 !! p = disk s !! p.
Proof.
  revert s. induction ks as [|key ks IH]; intros s Hp; [done|].
  rewrite flush_loop_cons.
  destruct (move_to_disk_disk key s) as (c & Hd & _).
  assert (disk (move_to_disk key s).2 !! p = disk s !! p) as Hp'.
  { rewrite Hd, lookup_insert_ne; [done|]. apply Hp. by left. }
  destruct (move_to_disk key s) as [[[]|e] s']; simpl in *; [|done].
  rewrite IH; [done|]. intros k Hk. apply Hp. by right.
Qed.

Lemma flush_loop_total ks s :
  NoDup ks → (∀ k, k ∈ ks → dumps s k) →
  (flush_loop ks s).1 = Ok tt ∧
  (∀ k, k ∈ ks → inmem (flush_loop ks s).2 !! k = None) ∧
  (∀ k, k ∈ ks → is_Some (disk (flush_loop ks s).2 !! fn k)).
Proof.
  revert s. induction ks as [|key ks IH]; intros s Hnd Hin.
  { split_and!; [done|by intros ? ?%elem_of_nil..]. }
  rewrite flush_loop_cons.
  apply NoDup_cons in Hnd as [Hkey Hnd].
  destruct (Hin key) as (v & b & Hv & Hb); [by left|].
  rewrite (move_to_disk_Ok _ _ _ _ Hv Hb).
  set (s1 := set_inmem _ _).
  destruct (IH s1) as (Hr & Hm & Hd); [done| |].
  { intros k Hk. destruct (Hin k) as (v' & b' & Hv' & Hb'); [by right|].
    exists v', b'. split; [|done]. simpl.
    rewrite lookup_delete_ne; [done|]. by intros ->. }
  split_and!; [done| |].
  - intros k [Heq|Hk]%elem_of_cons; [subst k|by auto].
    destruct (flush_loop_inmem ks s1 key) as [->|[_ ?]]; [|done].
    simpl. by rewrite lookup_delete_eq.
  - intros k [Heq|Hk]%elem_of_cons; [subst k|by auto].
    apply flush_loop_disk_mono. simpl. by rewrite lookup_insert_eq.
Qed.

(** With file names that tell the listed keys apart, the file of a
    listed key holds the dump of its value. *)
Lemma flush_loop_written ks s k v b :
  NoDup ks → (∀ k', k' ∈ ks → dumps s k') →
  (∀ k', k' ∈ ks → fn k' = fn k → k' = k) →
  k ∈ ks → inmem s !! k = Some v → dump v = Dumped b →
  disk (flush_loop ks s).2 !! fn k = Some b.
Proof.
  revert s. induction ks as [|key ks IH]; intros s Hnd Hin Hinj Hk Hv Hb.
  { by apply elem_of_nil in Hk. }
  rewrite flush_loop_cons.
  apply NoDup_cons in Hnd as [Hkey Hnd].
  destruct (Hin key) as (v0 & b0 & Hv0 & Hb0); [by left|].
  rewrite (move_to_disk_Ok _ _ _ _ Hv0 Hb0).
  set (s1 := set_inmem _ _).
  destruct (decide (k = key)) as [->|Hne].
  - rewrite flush_loop_disk_frame.
    + simpl. rewrite lookup_insert_eq. congruence.
    + intros k' Hk' Hfn. apply Hkey.
      rewrite <-(Hinj k'); [done|by right|done].
  - apply elem_of_cons in Hk as [?|Hk]; [done|].
    apply IH; [done| |intros k' Hk'; apply Hinj; by right|done| |done].
    + intros k' Hk'. destruct (Hin k') as (v' & b' & Hv' & Hb'); [by right|].
      exists v', b'. split; [|done]. simpl.
      rewrite lookup_delete_ne; [done|]. by intros ->.
    + simpl. by rewrite lookup_delete_ne.
Qed.

(** With a [dump] that never raises, [shrink] returns, and an entry
    is then still in memory or, file names telling keys apart, dumped
    in its file. *)
Lemma shrink_total s :
  (∀ v, ∃ b, dump v = Dumped b) →
  ∃ s', shrink s = (Ok tt, s') ∧ _keys s' = _keys s ∧
        ∀ k v b, Inj (=) (=) fn → inmem s !! k = Some v → dump v = Dumped b →
                 inmem s' !! k = Some v ∨
                 (inmem s' !! k = None ∧ disk s' !! fn k = Some b).
Proof.
  intros Hdump.
  pose proof (shrink_frame s) as [Hkeys _].
  destruct (shrink_flush_loop s) as (ks & Hnd & Hin & Hs).
  rewrite Hs in *.
  assert (∀ k, k ∈ ks → dumps s k) as Hd.
  { intros k [v Hv]%Hin. destruct (Hdump v) as [b Hb]. by exists v, b. }
  destruct (flush_loop_total ks s Hnd Hd) as (Hr & Hm & _).
  exists (flush_loop ks s).2. split_and!; [|done|].
  { destruct (flush_loop ks s) as [r s']. simpl in *. by subst. }
  intros k v b Hinj Hv Hb.
  destruct (decide (k ∈ ks)) as [Hk|Hk].
  - right. split; [by auto|].
    apply (flush_loop_written ks s k v b); try done.
    intros k' _ Hfn. by apply Hinj.
  - left. destruct (flush_loop_inmem ks s k) as [->|[? _]]; done.
Qed.

(** *** Round trip *)

(** C4, amended. With a [load] that inverts a [dump] that never
    raises, and file names that tell keys apart, a write returns and a
    read of the same key right after it returns the value written,
    whatever the store and whether or not the value was spilled. *)
Theorem write_then_read key value s :
  Inj (=) (=) fn →
  (∀ v, ∃ b, dump v = Dumped b ∧ load b = Some v) →
  ∃ s1 s2, __setitem__ key value s = (Ok tt, s1) ∧
           __getitem__ key s1 = (Ok value, s2).
Proof.
  intros Hinj Hcodec.
  assert (∀ v, ∃ b, dump v = Dumped b) as Hdump.
  { intros v. destruct (Hcodec v) as (b & ? & _). eauto. }
  destruct (Hcodec value) as (b & Hb & Hl).
  assert (∃ s0, __setitem__ key value s
                = shrink (set_keys (λ tracked, tracked ∪ {[key]})
                            (set_inmem <[key := value]> s0))) as [s0 Hset].
  { unfold Core.__setitem__, bind, modify. case_decide as Hk.
    - rewrite (delitem_tracked _ _ Hk). by eexists.
    - by eexists. }
  set (inserted := set_keys _ _) in Hset.
  destruct (shrink_total inserted Hdump) as (s1 & Hs1 & Hkeys & Hent).
  exists s1.
  assert (key ∈ _keys s1) as Hk1.
  { rewrite Hkeys. unfold inserted. simpl.
    apply elem_of_union. right. by apply elem_of_singleton. }
  destruct (Hent key value b Hinj) as [Hm|[Hm Hd]]; [|done|..].
  { unfold inserted. simpl. by rewrite lookup_insert_eq. }
  - exists s1. split; [by rewrite Hset|]. by apply getitem_in_memory.
  - destruct (shrink_total (set_inmem <[key := value]> s1) Hdump)
      as (s2 & Hs2 & _).
    exists s2. split; [by rewrite Hset|].
    unfold Core.__getitem__. rewrite Hm, decide_True by done.
    unfold bind, Core.get_from_disk. rewrite Hm, Hd, Hl.
    simpl. rewrite lookup_insert_eq. by rewrite Hs2.
Qed.

(** *** [flush] *)

(** C7. When [dump] raises neither on a value in memory nor on the
    list of keys, [flush] returns; it leaves nothing in memory, every
    key that was in memory has its file, the file of keys holds the
    dump of the list of keys, and a second [flush] returns and leaves
    the store, its directory included, as the first left it. When file
    names tell keys apart and none is the name of the file of keys,
    the file of a key that was in memory holds the dump of its value.
    The budget plays no part. *)
Theorem flush_idempotent s bkeys :
  (∀ k v, inmem s !! k = Some v → ∃ b, dump v = Dumped b) →
  dump_keys (elements (_keys s)) = Dumped bkeys →
  ∃ s1, flush s = (Ok tt, s1) ∧
        inmem s1 = ∅ ∧
        _keys s1 = _keys s ∧
        (∀ k, in_memory k s → on_disk k s1) ∧
        disk s1 !! keyfile = Some bkeys ∧
        (Inj (=) (=) fn → (∀ k, fn k ≠ keyfile) →
         ∀ k v b, inmem s !! k = Some v → dump v = Dumped b →
                  disk s1 !! fn k = Some b) ∧
        flush s1 = (Ok tt, s1).
Proof.
  intros Hdump Hkeys.
  set (ks := (map_to_list (inmem s)).*1).
  assert (NoDup ks) as Hnd by apply NoDup_fst_map_to_list.
  assert (∀ k, k ∈ ks ↔ is_Some (inmem s !! k)) as Hks.
  { intros k. unfold ks. rewrite list_elem_of_fmap. split.
    - intros ([k' v] & -> & Hkv%elem_of_map_to_list). by eexists.
    - intros [v Hv]. exists (k, v). by rewrite elem_of_map_to_list. }
  assert (∀ k, k ∈ ks → dumps s k) as Hd.
  { intros k [v Hv]%Hks. destruct (Hdump k v Hv) as [b Hb]. by exists v, b. }
  destruct (flush_loop_total ks s Hnd Hd) as (Hr & Hm & Hf).
  pose proof (flush_loop_frame ks s) as [Hfk _].
  pose proof (flush_loop_inmem ks s) as Hin.
  pose proof (λ k v b, flush_loop_written ks s k v b Hnd Hd) as Hw.
  destruct (flush_loop ks s) as [r s'] eqn:Hloop. simpl in *. subst r.
  assert (inmem s' = ∅) as Hempty.
  { apply map_empty. intros k.
    destruct (decide (k ∈ ks)) as [Hk|Hk]; [by apply Hm|].
    destruct (Hin k) as [->|[? _]]; [|done].
    apply eq_None_not_Some. by rewrite <-Hks. }
  exists (set_disk <[keyfile := bkeys]> s').
  assert (flush s = (Ok tt, set_disk <[keyfile := bkeys]> s')) as Hflush.
  { unfold Core.flush, bind. fold ks. rewrite Hloop.
    unfold Core.write_keys. by rewrite Hfk, Hkeys. }
  split_and!; [done..| | | |].
  - intros k Hk%Hks. unfold Core.on_disk. simpl.
    rewrite lookup_insert. case_decide; [done|]. by apply Hf.
  - simpl. by rewrite lookup_insert_eq.
  - intros Hinj Hne k v b Hv Hb. simpl.
    rewrite lookup_insert_ne by apply not_eq_sym, Hne.
    apply (Hw k v b); [|by apply Hks|done..].
    intros k' _ ?. by apply Hinj.
  - unfold Core.flush, bind. simpl. rewrite Hempty, map_to_list_empty.
    simpl. unfold Core.write_keys. simpl. rewrite Hfk, Hkeys.
    unfold set_disk. simpl. by rewrite insert_insert_eq.
Qed.

(** *** The seed and the budget *)

(** C2. The claim: every key in memory is tracked, also in a store
    built from a seed. The code: [__init__] takes the seed as
    [inmem] and leaves [_keys] empty, so a seeded key is in memory
    and is not tracked; [len] is 0 and [in] is false for it. *)
Theorem init_seed_untracked :
  ∀ key value avail,
    match __init__ (Some {[key := value]}) None avail with
    | Ok s =>
        in_memory key s ∧ (key ∉ __iter__ s) ∧
        __len__ s = 0 ∧ __contains__ key s = false ∧
        ¬ inmem_tracked s
    | Raise _ => False
    end.
Proof.
  intros key value avail. simpl.
  assert (in_memory key (Chest {[key := value]} ∅ ∅
            (default DEFAULT_AVAILABLE_MEMORY avail))) as Hin.
  { unfold in_memory. simpl. rewrite lookup_singleton_eq. by eexists. }
  split_and!; [done|set_solver|done|done|].
  intros Ht. by apply Ht in Hin.
Qed.

(** C3. The claim: after a write, usage is below the budget or nothing
    is left in memory. The code on a fresh store whose budget is the
    size of the value written: [shrink] does not return early, usage
    not being below the budget, and its loop does not run, usage not
    being above it; the value stays in memory with usage at the
    budget. *)
Theorem setitem_at_budget_keeps_entry :
  ∀ key value,
    ∃ s1, __setitem__ key value (fresh (Some (nbytes value))) = (Ok tt, s1) ∧
          inmem s1 = {[key := value]} ∧
          memory_usage s1 = available_memory s1 ∧
          ¬ (memory_usage s1 < available_memory s1)%Z ∧
          inmem s1 ≠ ∅.
Proof.
  intros key value.
  unfold Core.__setitem__, bind, modify, ret. simpl.
  rewrite decide_False by set_solver. simpl.
  set (s1 := set_keys _ _).
  assert (inmem s1 = {[key := value]}) as Hi by done.
  assert (memory_usage s1 = available_memory s1) as Hm.
  { unfold Core.memory_usage. rewrite Hi, map_to_list_singleton.
    simpl. lia. }
  exists s1. split_and!; [by apply shrink_at_budget|done|done|lia|].
  rewrite Hi. apply insert_non_empty.
Qed.

(** *** The keys, the memory and the directory *)

Section Consistent.
Hypothesis fn_inj : Inj (=) (=) fn.
Hypothesis fn_not_keyfile : ∀ k, fn k ≠ keyfile.

Set Default Proof Using "fn_inj fn_not_keyfile".

Lemma consistent_fresh avail : consistent (fresh avail).
Proof.
  unfold Core.consistent, in_memory, Core.on_disk. simpl.
  split_and!; intros key; rewrite ?lookup_empty;
    first [by intros [??] | set_solver].
Qed.

Lemma consistent_ext s s' :
  inmem s' = inmem s → _keys s' = _keys s → disk s' = disk s →
  consistent s → consistent s'.
Proof.
  unfold Core.consistent, in_memory, Core.on_disk.
  by intros -> -> ->.
Qed.

(** A file written for a tracked key, its entry kept or dropped. *)
Lemma consistent_move s s' key c :
  consistent s → key ∈ _keys s →
  _keys s' = _keys s →
  disk s' = <[fn key := c]> (disk s) →
  inmem s' = inmem s ∨ inmem s' = delete key (inmem s) →
  consistent s'.
Proof.
  unfold Core.consistent, in_memory, Core.on_disk.
  intros (Hm & Hd & Hk) Hkey -> -> Hin. split_and!.
  - intros k [v Hv]. apply Hm.
    destruct Hin as [Hin|Hin]; rewrite Hin in Hv; [by eexists|].
    apply lookup_delete_Some in Hv as [_ Hv]. by eexists.
  - intros k. rewrite lookup_insert. case_decide as Hfn; [|by auto].
    intros _. by rewrite <-(fn_inj _ _ Hfn).
  - intros k Hkk. destruct (decide (k = key)) as [->|Hne].
    { right. by rewrite lookup_insert_eq. }
    destruct (Hk k Hkk) as [Hv|Hf].
    + left. destruct Hin as [->| ->]; [done|].
      by rewrite lookup_delete_ne.
    + right. rewrite lookup_insert. by case_decide.
Qed.

Lemma move_to_disk_consistent key s :
  consistent s → key ∈ _keys s → consistent (move_to_disk key s).2.
Proof.
  intros Hc Hkey.
  destruct (move_to_disk_disk key s) as (c & Hd & _).
  pose proof (move_to_disk_frame key s) as [Hk _].
  pose proof (move_to_disk_inmem key s) as Hi.
  apply (consistent_move s _ key c); [done..|].
  destruct (move_to_disk key s) as [[[]|e] s']; simpl in *;
    [right; by destruct Hi|by left].
Qed.

Lemma flush_loop_consistent ks s :
  consistent s → (∀ k, k ∈ ks → k ∈ _keys s) →
  consistent (flush_loop ks s).2.
Proof.
  revert s. induction ks as [|key ks IH]; intros s Hc Hks; [done|].
  rewrite flush_loop_cons.
  pose proof (move_to_disk_consistent key s Hc) as Hc'.
  pose proof (move_to_disk_frame key s) as [Hk _].
  destruct (move_to_disk key s) as [[[]|e] s']; simpl in *.
  - apply IH; [apply Hc', Hks; by left|].
    intros k Hkk. rewrite Hk. apply Hks. by right.
  - apply Hc', Hks. by left.
Qed.

Lemma shrink_consistent s : consistent s → consistent (shrink s).2.
Proof.
  intros Hc. destruct (shrink_flush_loop s) as (ks & _ & Hin & ->).
  apply flush_loop_consistent; [done|].
  intros k Hk. by apply (proj1 Hc), Hin.
Qed.

Lemma get_from_disk_consistent key s :
  consistent s → key ∈ _keys s → consistent (get_from_disk key s).2.
Proof.
  intros Hc Hkey. unfold Core.get_from_disk.
  destruct (inmem s !! key); [done|].
  destruct (disk s !! fn key); [|done].
  destruct (load _) as [v|]; [|done]. simpl.
  destruct Hc as (Hm & Hd & Hk).
  unfold Core.consistent, in_memory, Core.on_disk in *. simpl.
  split_and!; [|done|].
  - intros k. rewrite lookup_insert. case_decide; [by subst|by auto].
  - intros k Hkk. rewrite lookup_insert. case_decide; [by left|by auto].
Qed.

Lemma getitem_consistent key s :
  consistent s → consistent (__getitem__ key s).2.
Proof.
  intros Hc. unfold Core.__getitem__.
  destruct (inmem s !! key); [done|].
  case_decide as Hkey; [|done]. unfold bind.
  pose proof (get_from_disk_consistent key s Hc Hkey) as Hc1.
  destruct (get_from_disk key s) as [[[]|e] s1]; simpl in *; [|done].
  destruct (inmem s1 !! key); [|done].
  pose proof (shrink_consistent s1 Hc1) as Hc2.
  by destruct (shrink s1) as [[[]|e] s2].
Qed.

Lemma removed_consistent key s :
  consistent s → consistent (removed key s).
Proof.
  intros (Hm & Hd & Hk).
  unfold Core.consistent, in_memory, Core.on_disk, Core.removed in *.
  simpl. split_and!.
  - intros k [v [Hne Hv]%lookup_delete_Some].
    apply elem_of_difference. split; [by eauto|set_solver].
  - intros k [v [Hne Hv]%lookup_delete_Some].
    apply elem_of_difference. split; [by eauto|].
    intros ->%elem_of_singleton. done.
  - intros k [Hkk Hne]%elem_of_difference.
    assert (k ≠ key) as Hne' by set_solver.
    destruct (Hk k Hkk) as [Hv|Hf].
    + left. by rewrite lookup_delete_ne.
    + right. rewrite lookup_delete_ne; [done|].
      intros Hfn. by apply Hne', fn_inj.
Qed.

Lemma delitem_consistent key s :
  consistent s → consistent (__delitem__ key s).2.
Proof.
  intros Hc. destruct (decide (key ∈ _keys s)) as [Hkey|Hkey].
  { rewrite (delitem_tracked _ _ Hkey). by apply removed_consistent. }
  destruct (delitem_untracked _ _ Hkey) as (s' & -> & Hk & Hi & Hd).
  simpl. apply (consistent_ext s); [| done | | done].
  - rewrite Hi. apply delete_id, eq_None_not_Some.
    intros Hv. by apply Hkey, (proj1 Hc).
  - rewrite Hd. apply delete_id, eq_None_not_Some.
    intros Hf. by apply Hkey, (proj1 (proj2 Hc)).
Qed.

Lemma setitem_consistent key value s :
  consistent s → consistent (__setitem__ key value s).2.
Proof.
  intros Hc.
  assert (∃ s0, consistent s0 ∧
            __setitem__ key value s
            = shrink (set_keys (λ tracked, tracked ∪ {[key]})
                        (set_inmem <[key := value]> s0))) as (s0 & Hc0 & ->).
  { unfold Core.__setitem__, bind, modify. case_decide as Hk.
    - rewrite (delitem_tracked _ _ Hk). eexists. split; [|done].
      by apply removed_consistent.
    - by eexists. }
  apply shrink_consistent.
  destruct Hc0 as (Hm & Hd & Hk).
  unfold Core.consistent, in_memory, Core.on_disk in *. simpl.
  split_and!.
  - intros k. rewrite lookup_insert. case_decide as Heq.
    + subst k. intros _. apply elem_of_union. right.
      by apply elem_of_singleton.
    + intros ?%Hm. apply elem_of_union. by left.
  - intros k ?%Hd. apply elem_of_union. by left.
  - intros k [Hkk| ->%elem_of_singleton]%elem_of_union.
    + rewrite lookup_insert. case_decide; [by left|by auto].
    + left. by rewrite lookup_insert_eq.
Qed.

Lemma flush_consistent s : consistent s → consistent (flush s).2.
Proof.
  intros Hc. unfold Core.flush, bind.
  pose proof (flush_loop_consistent (map_to_list (inmem s)).*1 s Hc) as Hc1.
  destruct (flush_loop _ s) as [[[]|e] s1]; simpl in *.
  - assert (consistent s1) as (Hm & Hd & Hk).
    { apply Hc1. intros k ([k' v] & -> & Hkv)%list_elem_of_fmap.
      apply (proj1 Hc). apply elem_of_map_to_list in Hkv. by eexists. }
    assert (∀ c, consistent (set_disk <[keyfile := c]> s1)) as Hw.
    { intros c. unfold Core.consistent, in_memory, Core.on_disk in *.
      simpl. split_and!; [done|..].
      - intros k. rewrite lookup_insert_ne; [by auto|].
        by apply not_eq_sym.
      - intros k Hkk. rewrite lookup_insert_ne; [by auto|].
        by apply not_eq_sym. }
    unfold Core.write_keys. destruct (dump_keys _); simpl; apply Hw.
  - apply Hc1. intros k ([k' v] & -> & Hkv)%list_elem_of_fmap.
    apply (proj1 Hc). apply elem_of_map_to_list in Hkv. by eexists.
Qed.

Lemma reachable_consistent s : reachable s → consistent s.
Proof.
  induction 1 as [avail|c s _ IH]; [apply consistent_fresh|].
  destruct c; simpl;
    auto using getitem_consistent, setitem_consistent,
               delitem_consistent, flush_consistent.
Qed.
End Consistent.

Set Default Proof Using "Type".

(** C1, amended. In a store built without a seed on a fresh
    directory, with file names that tell keys apart and none of which
    is the name of the file of keys, after any calls of the mapping
    interface and of [flush], returning or raising: the keys are those
    in memory together with those that have a file, every key in
    memory is tracked, and a tracked key is in memory or else only on
    disk. A key in memory may have a file as well. *)
Theorem keys_are_memory_or_disk s :
  Inj (=) (=) fn → (∀ k, fn k ≠ keyfile) → reachable s →
  set_equivalence s ∧
  inmem_tracked s ∧
  (∀ key, key ∈ __iter__ s ↔
          in_memory key s ∨ (on_disk key s ∧ ¬ in_memory key s)).
Proof.
  intros Hinj Hne Hr.
  destruct (reachable_consistent Hinj Hne s Hr) as (Hm & Hd & Hk).
  unfold Core.set_equivalence, inmem_tracked, __iter__.
  split_and!; [|done|].
  - intros key. split; [by auto|]. intros [?|?]; auto.
  - intros key. split.
    + intros Hkey. destruct (decide (is_Some (inmem s !! key))) as [?|Hn].
      * by left.
      * right. destruct (Hk key Hkey) as [?|?]; [done|]. by split.
    + intros [?|[? _]]; auto.
Qed.

Lemma reachable_after_all cs s :
  reachable s →
  reachable (after_all fn nbytes dump load dump_keys tuple_len cs s).
Proof.
  revert s. induction cs as [|c cs IH]; intros s Hs; [done|].
  simpl. apply IH. by constructor.
Qed.

(** *** Keys in memory stay tracked *)

Lemma flush_loop_keeps_tracked ks s :
  inmem_tracked s → inmem_tracked (flush_loop ks s).2.
Proof.
  intros Ht k [v Hv]. destruct (flush_loop_frame ks s) as [-> _].
  apply Ht. unfold in_memory.
  destruct (flush_loop_inmem ks s k) as [Heq|[_ Hn]].
  - rewrite <-Heq. by eexists.
  - congruence.
Qed.

Lemma shrink_keeps_tracked s : inmem_tracked s → inmem_tracked (shrink s).2.
Proof.
  destruct (shrink_flush_loop s) as (ks & _ & _ & ->).
  apply flush_loop_keeps_tracked.
Qed.

Lemma getitem_keeps_tracked key s :
  inmem_tracked s → inmem_tracked (__getitem__ key s).2.
Proof.
  intros Ht. unfold Core.__getitem__.
  destruct (inmem s !! key) eqn:Hkey; [done|].
  case_decide as Hin; [|done]. unfold bind, Core.get_from_disk.
  rewrite Hkey. destruct (disk s !! fn key); [|done].
  destruct (load _) as [v|]; [|done]. simpl.
  rewrite lookup_insert_eq.
  pose proof (shrink_keeps_tracked (set_inmem <[key := v]> s)) as Hs.
  destruct (shrink _) as [[[]|e] s2]; simpl in *; apply Hs;
    intros k; unfold in_memory; simpl; rewrite lookup_insert;
    (case_decide; [by subst|apply Ht]).
Qed.

Lemma delitem_keeps_tracked key s :
  inmem_tracked s → inmem_tracked (__delitem__ key s).2.
Proof.
  intros Ht k. unfold in_memory.
  destruct (decide (key ∈ _keys s)) as [Hkey|Hkey].
  - rewrite (delitem_tracked _ _ Hkey). simpl.
    intros [v [Hne Hv]%lookup_delete_Some].
    apply elem_of_difference. split; [apply Ht; by eexists|].
    by intros ->%elem_of_singleton.
  - destruct (delitem_untracked _ _ Hkey) as (s' & -> & Hk' & Hi' & _).
    simpl. rewrite Hk', Hi'.
    intros [v [_ Hv]%lookup_delete_Some]. apply Ht. by eexists.
Qed.

Lemma setitem_keeps_tracked key value s :
  inmem_tracked s → inmem_tracked (__setitem__ key value s).2.
Proof.
  intros Ht.
  assert (∃ s0, inmem_tracked s0 ∧
            __setitem__ key value s
            = shrink (set_keys (λ tracked, tracked ∪ {[key]})
                        (set_inmem <[key := value]> s0))) as (s0 & Ht0 & ->).
  { unfold Core.__setitem__, bind, modify. case_decide as Hk.
    - pose proof (delitem_keeps_tracked key s Ht) as Hd.
      rewrite (delitem_tracked _ _ Hk) in *. by eexists.
    - by eexists. }
  apply shrink_keeps_tracked. intros k. unfold in_memory. simpl.
  rewrite lookup_insert. case_decide as Heq.
  - subst k. intros _. apply elem_of_union. right. by apply elem_of_singleton.
  - intros ?%Ht0. apply elem_of_union. by left.
Qed.

Lemma flush_keeps_tracked s : inmem_tracked s → inmem_tracked (flush s).2.
Proof.
  intros Ht. unfold Core.flush, bind.
  pose proof (flush_loop_keeps_tracked (map_to_list (inmem s)).*1 s Ht) as Hl.
  destruct (flush_loop _ s) as [[[]|e] s1]; simpl in *; [|done].
  unfold Core.write_keys. by destruct (dump_keys _).
Qed.

(** Where every key in memory is tracked, every call keeps it so,
    whether it returns or raises. *)
Lemma after_keeps_tracked c s : inmem_tracked s → inmem_tracked (after c s).
Proof.
  destruct c; simpl;
    auto using getitem_keeps_tracked, setitem_keeps_tracked,
               delitem_keeps_tracked, flush_keeps_tracked.
Qed.

(** *** What [shrink] does reach *)

Lemma sum_nbytes_perm (l1 l2 : list (K * V)) :
  l1 ≡ₚ l2 → sum_nbytes nbytes l1 = sum_nbytes nbytes l2.
Proof. induction 1; simpl; lia. Qed.

Lemma shrink_loop_converges stack mem s s' :
  stack ≡ₚ map_to_list (inmem s) →
  mem = sum_nbytes nbytes stack →
  shrink_loop stack mem s = (Ok tt, s') →
  (memory_usage s' ≤ available_memory s')%Z ∨ inmem s' = ∅.
Proof.
  revert mem s. induction stack as [|[key data] stack IH]; intros mem s Hp Hm.
  { intros [= <-]. right. apply map_to_list_empty_iff.
    symmetry. by apply Permutation_nil_l. }
  simpl. case_decide as Hgt.
  - assert (inmem s !! key = Some data) as Hkey.
    { apply elem_of_map_to_list. rewrite <-Hp. by left. }
    unfold bind, Core.move_to_disk. rewrite Hkey.
    destruct (dump data); [|done].
    apply IH; [|simpl in Hm; lia]. simpl.
    apply (Permutation_cons_inv (a := (key, data))).
    by rewrite Hp, map_to_list_delete.
  - intros [= <-]. left. unfold Core.memory_usage.
    rewrite <-(sum_nbytes_perm _ _ Hp), <-Hm. lia.
Qed.

(** When [shrink] returns, usage is at most the budget, or nothing
    is left in memory. *)
Lemma shrink_converges s s' :
  shrink s = (Ok tt, s') →
  (memory_usage s' ≤ available_memory s')%Z ∨ inmem s' = ∅.
Proof.
  unfold Core.shrink. case_decide as Hlt.
  - intros [= <-]. left. lia.
  - apply shrink_loop_converges; [apply shrink_stack_perm|].
    unfold Core.memory_usage. apply sum_nbytes_perm.
    by rewrite shrink_stack_perm.
Qed.

End ChestTheory.

(** ** The concrete store *)

Lemma name_of_inj : Inj (=) (=) Ex.name_of.
Proof.
  intros a b Heq. unfold Ex.name_of in Heq. simpl in Heq.
  injection Heq as Heq. by apply (inj pretty).
Qed.

Lemma name_of_not_keyfile k : Ex.name_of k ≠ keyfile.
Proof. unfold Ex.name_of, keyfile. simpl. discriminate. Qed.

Lemma codec_total : ∀ v, ∃ b, Ex.dump v = Dumped b ∧ Ex.load b = Some v.
Proof. intros v. by exists v. Qed.

Lemma reloaded_reachable :
  reachable Ex.name_of Ex.nbytes Ex.dump Ex.load Ex.dump_keys Ex.not_tuple
    Ex.reloaded.
Proof. apply reachable_after_all. constructor. Qed.

(** C5. The claim: a read fails with KeyNotFound exactly when the key
    is neither tracked nor in memory, a delete exactly when the key is
    not tracked, so both on a fresh store for any key. The code on a
    fresh store at the key [("tuple", "key")]: the delete raises
    [KeyError], but the read formats the message of its [KeyError] with
    the key on the right of [%], a tuple of two for a format that takes
    one, and raises [TypeError]. *)
Theorem getitem_missing_tuple_key_TypeError :
  ∀ (V : Type) (fn : list string → string) (nbytes : V → Z)
    (dump : V → dumped) (load : bytes → option V) (avail : option Z),
    (["tuple"; "key"] ∉ __iter__ (fresh (K := list string) (V := V) avail)) ∧
    __getitem__ fn nbytes dump load Ex.str_tuple_len ["tuple"; "key"]
      (fresh avail) = (Raise TypeError, fresh avail) ∧
    (__getitem__ fn nbytes dump load Ex.str_tuple_len ["tuple"; "key"]
       (fresh avail)).1 ≠ Raise KeyError ∧
    (__delitem__ fn ["tuple"; "key"] (fresh (V := V) avail)).1
    = Raise KeyError.
Proof.
  intros V fn nbytes dump load avail.
  assert (["tuple"; "key"] ∉ _keys (fresh (K := list string) (V := V) avail))
    as Hk.
  { unfold fresh. simpl. apply not_elem_of_empty. }
  assert (__getitem__ fn nbytes dump load Ex.str_tuple_len ["tuple"; "key"]
            (fresh avail) = (Raise TypeError, fresh avail)) as Hget.
  { by rewrite getitem_untracked. }
  split_and!; [done|done| |].
  - by rewrite Hget.
  - by destruct (delitem_untracked fn _ _ Hk) as (s' & -> & _).
Qed.

(** C1, as claimed, fails on the store [Ex.reloaded]: key 2 was spilled
    to its file by the second write and loaded by the read, which
    leaves the file in place; the key is tracked, in memory and on
    disk. *)
Lemma read_leaves_backing_file :
  reachable Ex.name_of Ex.nbytes Ex.dump Ex.load Ex.dump_keys Ex.not_tuple
    Ex.reloaded ∧
  2%Z ∈ __iter__ Ex.reloaded ∧
  in_memory 2%Z Ex.reloaded ∧
  on_disk Ex.name_of 2%Z Ex.reloaded ∧
  ¬ (set_equivalence Ex.name_of Ex.reloaded ∧
     mutual_exclusion Ex.name_of Ex.reloaded).
Proof.
  assert (2%Z ∈ __iter__ Ex.reloaded) as Hk by compute_done.
  assert (in_memory 2%Z Ex.reloaded) as Hm.
  { unfold in_memory. eexists. compute_done. }
  assert (on_disk Ex.name_of 2%Z Ex.reloaded) as Hd.
  { unfold on_disk. eexists. compute_done. }
  split_and!; [apply reloaded_reachable|done..|].
  intros [_ Hex]. by apply (Hex 2%Z).
Qed.

Lemma keys_are_memory_or_disk_witness :
  Inj (=) (=) Ex.name_of ∧
  (∀ k, Ex.name_of k ≠ keyfile) ∧
  reachable Ex.name_of Ex.nbytes Ex.dump Ex.load Ex.dump_keys Ex.not_tuple
    Ex.reloaded ∧
  set_equivalence Ex.name_of Ex.reloaded ∧
  inmem_tracked Ex.reloaded.
Proof.
  destruct (keys_are_memory_or_disk Ex.name_of Ex.nbytes Ex.dump Ex.load
              Ex.dump_keys Ex.not_tuple Ex.reloaded name_of_inj name_of_not_keyfile
              reloaded_reachable) as (Heq & Ht & _).
  split_and!;
    [exact name_of_inj|exact name_of_not_keyfile|exact reloaded_reachable
    |exact Heq|exact Ht].
Defined.

(** C4, as claimed, fails on the seeded store [Ex.seeded], whose file
    names do not tell keys 5 and -5 apart: the write of 20 bytes under
    key 5 spills key 5 and then key -5, both to the file ["5"], and the
    read of key 5 returns the 15 bytes of key -5. *)
Lemma collision_breaks_round_trip :
  (∀ v, ∃ b, Ex.dump v = Dumped b ∧ Ex.load b = Some v) ∧
  __init__ (λ _, None) (Some {[ (-5)%Z := Ex.blob Byte.x61 15 ]}) None
    (Some 10%Z) = Ok Ex.seeded ∧
  Ex.abs_name 5 = Ex.abs_name (-5) ∧
  ∃ s1 s2,
    __setitem__ Ex.abs_name Ex.nbytes Ex.dump 5%Z (Ex.blob Byte.x62 20)
      Ex.seeded = (Ok tt, s1) ∧
    __getitem__ Ex.abs_name Ex.nbytes Ex.dump Ex.load Ex.not_tuple 5%Z s1
      = (Ok (Ex.blob Byte.x61 15), s2) ∧
    Ex.blob Byte.x61 15 ≠ Ex.blob Byte.x62 20.
Proof.
  split_and!; [exact codec_total|done|done|].
  set (w := __setitem__ Ex.abs_name Ex.nbytes Ex.dump 5%Z
              (Ex.blob Byte.x62 20) Ex.seeded).
  exists w.2, (__getitem__ Ex.abs_name Ex.nbytes Ex.dump Ex.load Ex.not_tuple 5%Z w.2).2.
  split_and!; [compute_done..|discriminate].
Qed.

Lemma write_then_read_witness :
  Inj (=) (=) Ex.name_of ∧
  (∀ v, ∃ b, Ex.dump v = Dumped b ∧ Ex.load b = Some v) ∧
  ∃ s1 s2,
    __setitem__ Ex.name_of Ex.nbytes Ex.dump 7%Z (Ex.blob Byte.x62 20)
      Ex.holding = (Ok tt, s1) ∧
    __getitem__ Ex.name_of Ex.nbytes Ex.dump Ex.load Ex.not_tuple 7%Z s1
      = (Ok (Ex.blob Byte.x62 20), s2).
Proof.
  split_and!; [exact name_of_inj|exact codec_total|].
  exact (write_then_read Ex.name_of Ex.nbytes Ex.dump Ex.load Ex.not_tuple 7%Z
           (Ex.blob Byte.x62 20) Ex.holding name_of_inj codec_total).
Defined.

Lemma move_to_disk_failure_keeps_inmem_witness :
  inmem Ex.holding !! 7%Z = Some (Ex.blob Byte.x63 6) ∧
  Ex.dump_short (Ex.blob Byte.x63 6) = DumpFailed (Ex.blob Byte.x63 4) ∧
  ∃ s', move_to_disk Ex.name_of Ex.dump_short 7%Z Ex.holding
        = (Raise DumpError, s') ∧
        inmem s' = inmem Ex.holding ∧
        inmem s' !! 7%Z = Some (Ex.blob Byte.x63 6) ∧
        _keys s' = _keys Ex.holding ∧
        disk s' = <[Ex.name_of 7 := Ex.blob Byte.x63 4]> (disk Ex.holding).
Proof.
  assert (inmem Ex.holding !! 7%Z = Some (Ex.blob Byte.x63 6)) as Hv
    by (vm_compute; reflexivity).
  assert (Ex.dump_short (Ex.blob Byte.x63 6) = DumpFailed (Ex.blob Byte.x63 4))
    as Hd by (vm_compute; reflexivity).
  split_and!; [exact Hv|exact Hd|].
  exact (proj1 (move_to_disk_failure_keeps_inmem Ex.name_of Ex.dump_short
                  7%Z Ex.holding _ _ Hv Hd)).
Defined.

Lemma delitem_untracked_removes_file_witness :
  ((-5)%Z ∉ _keys Ex.spilled) ∧
  ∃ s', __delitem__ Ex.abs_name (-5)%Z Ex.spilled = (Raise KeyError, s') ∧
        _keys s' = _keys Ex.spilled ∧
        disk s' = delete (Ex.abs_name (-5)) (disk Ex.spilled) ∧
        (is_Some (disk Ex.spilled !! Ex.abs_name (-5)) →
         disk s' !! Ex.abs_name (-5) = None ∧ disk s' ≠ disk Ex.spilled).
Proof.
  assert ((-5)%Z ∉ _keys Ex.spilled) as Hk.
  { apply (bool_decide_unpack _). vm_compute. exact I. }
  split; [exact Hk|].
  exact (delitem_untracked_removes_file Ex.abs_name (-5)%Z Ex.spilled Hk).
Defined.

Lemma setitem_removes_prior_entry_witness :
  5%Z ∈ _keys Ex.spilled ∧
  on_disk Ex.abs_name 5%Z Ex.spilled ∧
  __delitem__ Ex.abs_name 5%Z Ex.spilled
    = (Ok tt, removed Ex.abs_name 5%Z Ex.spilled) ∧
  ¬ on_disk Ex.abs_name 5%Z (removed Ex.abs_name 5%Z Ex.spilled) ∧
  __setitem__ Ex.abs_name Ex.nbytes Ex.dump 5%Z (Ex.blob Byte.x63 3) Ex.spilled
    = shrink Ex.abs_name Ex.nbytes Ex.dump
        (set_keys (λ tracked, tracked ∪ {[5%Z]})
           (set_inmem <[5%Z := Ex.blob Byte.x63 3]>
              (removed Ex.abs_name 5%Z Ex.spilled))).
Proof.
  assert (5%Z ∈ _keys Ex.spilled) as Hk.
  { apply (bool_decide_unpack _). vm_compute. exact I. }
  assert (on_disk Ex.abs_name 5%Z Ex.spilled) as Hd.
  { unfold on_disk. eexists. vm_compute. reflexivity. }
  destruct (setitem_removes_prior_entry Ex.abs_name Ex.nbytes Ex.dump 5%Z
              (Ex.blob Byte.x63 3) Ex.spilled Hk)
    as (Hdel & _ & Hgone & _ & Hset & _).
  split_and!; [exact Hk|exact Hd|exact Hdel|exact Hgone|exact Hset].
Defined.

Lemma flush_idempotent_witness :
  (∀ k v, inmem Ex.holding !! k = Some v → ∃ b, Ex.dump v = Dumped b) ∧
  Ex.dump_keys (elements (_keys Ex.holding)) = Dumped [Byte.x07] ∧
  ∃ s1, flush Ex.name_of Ex.dump Ex.dump_keys Ex.holding = (Ok tt, s1) ∧
        inmem s1 = ∅ ∧
        disk s1 !! keyfile = Some [Byte.x07] ∧
        disk s1 !! Ex.name_of 7 = Some (Ex.blob Byte.x63 6) ∧
        flush Ex.name_of Ex.dump Ex.dump_keys s1 = (Ok tt, s1).
Proof.
  assert (∀ k v, inmem Ex.holding !! k = Some v → ∃ b, Ex.dump v = Dumped b)
    as Hdump.
  { intros k v _. exists v. reflexivity. }
  assert (Ex.dump_keys (elements (_keys Ex.holding)) = Dumped [Byte.x07])
    as Hkeys by (vm_compute; reflexivity).
  destruct (flush_idempotent Ex.name_of Ex.dump Ex.dump_keys Ex.holding
              [Byte.x07] Hdump Hkeys)
    as (s1 & Hf & He & _ & _ & Hm & Hv & Hf2).
  split_and!; [exact Hdump|exact Hkeys|].
  exists s1. split_and!; [exact Hf|exact He|exact Hm| |exact Hf2].
  apply (Hv name_of_inj name_of_not_keyfile 7%Z (Ex.blob Byte.x63 6)).
  - vm_compute. reflexivity.
  - reflexivity.
Defined.

(** ** More on [key_to_filename] *)

Lemma ident_start_not_digit c : is_ident_start c = true → is_digit c = false.
Proof. destruct c as [[] [] [] [] [] [] [] []]; done. Qed.

Lemma ident_start_word c : is_ident_start c = true → is_word c = true.
Proof. unfold is_word. by intros ->. Qed.

Lemma digit_word c : is_digit c = true → is_word c = true.
Proof. unfold is_word, is_digit. intros ->. apply orb_true_r. Qed.

Lemma all_digit_all_word s : all_digit s = true → all_word s = true.
Proof.
  induction s as [|c s IH]; simpl; [done|].
  intros [Hc Hs]%andb_true_iff. by rewrite (digit_word c Hc), IH.
Qed.

Lemma pretty_N_go_nonempty x s :
  s ≠ EmptyString → pretty_N_go x s ≠ EmptyString.
Proof.
  revert s. induction (N.lt_wf_0 x) as [x _ IH]; intros s Hs.
  destruct (decide (x = 0%N)) as [->|Hx]; [by rewrite pretty_N_go_0|].
  rewrite pretty_N_go_step by lia. apply IH; [apply N.div_lt; lia|done].
Qed.

Lemma digest_nonempty hash key : digest hash key ≠ EmptyString.
Proof.
  unfold digest, pretty, pretty_Z.
  destruct (Z.abs (hash key)) as [|p|p] eqn:Hh; [done| |lia].
  unfold pretty, pretty_positive, pretty, pretty_N.
  case_decide; [done|].
  rewrite pretty_N_go_step by lia. by apply pretty_N_go_nonempty.
Qed.

Lemma match_word_star_end_chars s c :
  match_word_star_end s = true → c ∈ String.list_ascii_of_string s →
  is_word c = true ∨ c = newline.
Proof.
  induction s as [|c' s IH]; simpl; [by intros _ ?%elem_of_nil|].
  destruct (is_word c') eqn:Hc'.
  - intros Hs [->|Hc]%elem_of_cons; auto.
  - intros [Hn He]%andb_true_iff.
    apply Ascii.eqb_eq in Hn as ->. apply String.eqb_eq in He as ->.
    simpl. intros [->|?%elem_of_nil]%elem_of_cons; auto.
Qed.

(** Every default file name is a word, possibly followed by one
    newline. *)
Lemma key_to_filename_word hash key :
  match_word_star_end (key_to_filename hash key) = true.
Proof.
  assert (match_word_star_end (digest hash key) = true) as Hd.
  { apply all_word_match_end, all_digit_all_word, digest_all_digit. }
  destruct key as [s| |]; simpl; [|done..].
  destruct (re_match_identifier s) eqn:Hm; [|done].
  destruct s as [|c s]; [done|]. simpl in *.
  apply andb_true_iff in Hm as [Hc Hs].
  by rewrite (ident_start_word c Hc).
Qed.

Lemma match_word_star_end_newline s s1 s2 :
  match_word_star_end s = true →
  s = s1 +:+ String newline s2 → s2 = EmptyString.
Proof.
  revert s. induction s1 as [|c s1 IH]; intros s Hs ->; simpl in Hs.
  - by apply String.eqb_eq in Hs.
  - destruct (is_word c); [by eapply IH|].
    apply andb_true_iff in Hs as [_ He]. apply String.eqb_eq in He.
    by destruct s1.
Qed.

(** X1. The default file name of any key is not empty, holds no path
    separator and no dot, is never the name of the file of keys, and
    holds a newline at most as its last character. *)
Theorem default_name_safe :
  ∀ (hash : pykey → Z) (key : pykey),
    key_to_filename hash key ≠ EmptyString ∧
    (Ascii.ascii_of_nat 47
       ∉ String.list_ascii_of_string (key_to_filename hash key)) ∧
    (Ascii.ascii_of_nat 46
       ∉ String.list_ascii_of_string (key_to_filename hash key)) ∧
    key_to_filename hash key ≠ keyfile ∧
    (∀ s1 s2, key_to_filename hash key = s1 +:+ String newline s2 →
              s2 = EmptyString).
Proof.
  intros hash key.
  pose proof (key_to_filename_word hash key) as Hw.
  assert (∀ c, c ∈ String.list_ascii_of_string (key_to_filename hash key) →
               is_word c = true ∨ c = newline) as Hc.
  { intros c. by apply match_word_star_end_chars. }
  split_and!.
  - destruct key as [s| |]; simpl; [|apply digest_nonempty..].
    destruct (re_match_identifier s) eqn:Hm; [|apply digest_nonempty].
    by destruct s.
  - intros [?|?]%Hc; done.
  - intros [?|?]%Hc; done.
  - intros Heq. rewrite Heq in Hc.
    destruct (Hc (Ascii.ascii_of_nat 46)) as [?|?]; [by left|done..].
  - intros s1 s2. by apply match_word_star_end_newline.
Qed.

(** X2. Two keys with the same default file name are the same key, or
    both are named by their digests and their hashes agree up to sign:
    an identifier never shares its file with another key. *)
Theorem default_name_collision (hash : pykey → Z) (k1 k2 : pykey) :
  key_to_filename hash k1 = key_to_filename hash k2 →
  k1 = k2 ∨
  (key_to_filename hash k1 = digest hash k1 ∧
   key_to_filename hash k2 = digest hash k2 ∧
   Z.abs (hash k1) = Z.abs (hash k2)).
Proof.
  assert (∀ s k, re_match_identifier s = true → s ≠ digest hash k) as Hne.
  { intros s k Hm Heq. pose proof (digest_all_digit hash k) as Hd.
    rewrite <-Heq in Hd. destruct s as [|c s]; [done|]. simpl in *.
    apply andb_true_iff in Hm as [Hc _]. apply andb_true_iff in Hd as [Hd _].
    by rewrite (ident_start_not_digit c Hc) in Hd. }
  assert (∀ k, key_to_filename hash k = digest hash k ∨
               ∃ s, k = KStr s ∧ re_match_identifier s = true ∧
                    key_to_filename hash k = s) as Hcase.
  { intros [s| |]; simpl; [|by left..].
    destruct (re_match_identifier s) eqn:Hm; [right; by exists s|by left]. }
  intros Heq.
  destruct (Hcase k1) as [H1|(s1 & -> & Hm1 & H1)],
           (Hcase k2) as [H2|(s2 & -> & Hm2 & H2)].
  - right. split_and!; [done..|].
    rewrite H1, H2 in Heq. unfold digest in Heq.
    by apply (inj (pretty (A:=Z))) in Heq.
  - rewrite H1, H2 in Heq. by destruct (Hne s2 k1 Hm2).
  - rewrite H1, H2 in Heq. by destruct (Hne s1 k2 Hm1).
  - left. rewrite H1, H2 in Heq. by subst.
Qed.

Lemma default_name_collision_witness :
  key_to_filename Ex.int_hash (KInt 5) = key_to_filename Ex.int_hash (KInt (-5)) ∧
  (KInt 5 = KInt (-5) ∨
   (key_to_filename Ex.int_hash (KInt 5) = digest Ex.int_hash (KInt 5) ∧
    key_to_filename Ex.int_hash (KInt (-5)) = digest Ex.int_hash (KInt (-5)) ∧
    Z.abs (Ex.int_hash (KInt 5)) = Z.abs (Ex.int_hash (KInt (-5))))).
Proof.
  assert (key_to_filename Ex.int_hash (KInt 5)
          = key_to_filename Ex.int_hash (KInt (-5))) as Heq by reflexivity.
  split; [exact Heq|].
  exact (default_name_collision Ex.int_hash (KInt 5) (KInt (-5)) Heq).
Defined.

(** ** More on the store *)

Section ChestMore.
Context `{Countable K} {V : Type}.
Variable fn : K → string.
Variable nbytes : V → Z.
Variable dump : V → dumped.
Variable load : bytes → option V.
Variable dump_keys : list K → dumped.
Variable load_keys : bytes → option (list K).
Variable tuple_len : K → option nat.

Implicit Types (s : chest K V) (key k : K) (v value : V) (ks : list K).

Set Default Proof Using "Type".

Local Abbreviation move_to_disk := (move_to_disk fn dump).
Local Abbreviation get_from_disk := (get_from_disk fn load).
Local Abbreviation flush_loop := (flush_loop fn dump).
Local Abbreviation shrink_loop := (shrink_loop fn nbytes dump).
Local Abbreviation shrink := (shrink fn nbytes dump).
Local Abbreviation __getitem__ := (__getitem__ fn nbytes dump load tuple_len).
Local Abbreviation __setitem__ := (__setitem__ fn nbytes dump).
Local Abbreviation __delitem__ := (__delitem__ fn).
Local Abbreviation write_keys := (write_keys dump_keys).
Local Abbreviation flush := (flush fn dump dump_keys).
Local Abbreviation memory_usage := (memory_usage nbytes).
Local Abbreviation after := (after fn nbytes dump load dump_keys tuple_len).
Local Abbreviation reachable :=
  (reachable fn nbytes dump load dump_keys tuple_len).
Local Abbreviation on_disk := (on_disk fn).
Local Abbreviation removed := (removed fn).
Local Abbreviation consistent := (consistent fn).
Local Abbreviation content := (content fn load).
Local Abbreviation files_dumped := (files_dumped fn dump).
Local Abbreviation __init__ := (__init__ (V:=V) load_keys).
Local Abbreviation formats := (formats tuple_len).
Local Abbreviation missing_key_error := (missing_key_error tuple_len).

(** The store a write shrinks: the prior entry removed if the key was
    tracked, the new one inserted. *)
Lemma setitem_shrinks key value s :
  ∃ s0, (s0 = s ∧ key ∉ _keys s ∨ s0 = removed key s ∧ key ∈ _keys s) ∧
        __setitem__ key value s
        = shrink (set_keys (λ tracked, tracked ∪ {[key]})
                    (set_inmem <[key := value]> s0)).
Proof.
  unfold Core.__setitem__, bind, modify. case_decide as Hk.
  - rewrite (delitem_tracked fn _ _ Hk). exists (removed key s). auto.
  - exists s. auto.
Qed.

(** X5. A write adds its key to the set of keys and touches no other,
    whether it returns or raises: the key is then contained, and the
    length grows by one exactly when the key was not tracked. *)
Theorem write_tracks_key :
  ∀ key value s,
    _keys (__setitem__ key value s).2 = _keys s ∪ {[key]} ∧
    __contains__ key (__setitem__ key value s).2 = true ∧
    (key ∈ _keys s →
     __len__ (__setitem__ key value s).2 = __len__ s) ∧
    (key ∉ _keys s →
     __len__ (__setitem__ key value s).2 = S (__len__ s)).
Proof.
  clear tuple_len. intros key value s.
  assert (_keys (__setitem__ key value s).2 = _keys s ∪ {[key]}) as Hkeys.
  { destruct (setitem_shrinks key value s) as (s0 & Hs0 & ->).
    destruct (shrink_frame fn nbytes dump
                (set_keys (λ tracked, tracked ∪ {[key]})
                   (set_inmem <[key := value]> s0))) as [-> _].
    simpl. destruct Hs0 as [[-> _]|[-> Hk]]; [done|]. simpl.
    apply set_eq. intros k.
    rewrite !elem_of_union, elem_of_difference, !elem_of_singleton.
    destruct (decide (k = key)); tauto. }
  unfold __contains__, __len__. rewrite Hkeys. split_and!; [done| | |].
  - apply bool_decide_eq_true. apply elem_of_union. right.
    by apply elem_of_singleton.
  - intros Hk. f_equal. apply set_eq. intros k.
    rewrite elem_of_union, elem_of_singleton. split; [|by left].
    intros [?| ->]; done.
  - intros Hk. rewrite size_union, size_singleton; [apply Nat.add_1_r|].
    intros k Hk1 ->%elem_of_singleton. done.
Qed.

(** X6. Deleting a tracked key returns and forgets the key: it is no
    longer contained, the length drops by one, no entry and no file is
    left for it, a second delete of it raises [KeyError], and a read of
    it raises and leaves the store as it is: [KeyError], or
    [TypeError] when the key is a tuple that the message of the error
    cannot be formatted with. *)
Theorem delete_forgets_key key s :
  key ∈ _keys s →
  ∃ s', __delitem__ key s = (Ok tt, s') ∧
        __contains__ key s' = false ∧
        S (__len__ s') = __len__ s ∧
        ¬ in_memory key s' ∧
        ¬ on_disk key s' ∧
        __getitem__ key s' = (Raise (missing_key_error key), s') ∧
        (formats key = true → __getitem__ key s' = (Raise KeyError, s')) ∧
        (formats key = false → __getitem__ key s' = (Raise TypeError, s')) ∧
        (__delitem__ key s').1 = Raise KeyError.
Proof.
  intros Hk. exists (removed key s).
  assert (key ∉ _keys (removed key s)) as Hgone.
  { simpl. apply not_elem_of_difference. right. by apply elem_of_singleton. }
  assert (inmem (removed key s) !! key = None) as Hmem.
  { simpl. apply lookup_delete_eq. }
  pose proof (getitem_untracked fn nbytes dump load tuple_len key
                (removed key s) Hgone Hmem) as Hget.
  split_and!.
  - by apply delitem_tracked.
  - by apply bool_decide_eq_false.
  - unfold __len__.
    change (_keys (removed key s)) with (_keys s ∖ {[key]}).
    assert (_keys s = {[key]} ∪ _keys s ∖ {[key]}) as Heq.
    { apply union_difference_L. by intros k ->%elem_of_singleton. }
    rewrite Heq at 2.
    rewrite (size_union {[key]} (_keys s ∖ {[key]})), size_singleton; [done|].
    intros k ->%elem_of_singleton [_ Hn]%elem_of_difference.
    by apply Hn, elem_of_singleton.
  - unfold in_memory. rewrite Hmem. by intros [??].
  - unfold Core.on_disk. simpl. rewrite lookup_delete_eq. by intros [??].
  - done.
  - intros Hf. rewrite Hget. unfold Core.missing_key_error. by rewrite Hf.
  - intros Hf. rewrite Hget. unfold Core.missing_key_error. by rewrite Hf.
  - by destruct (delitem_untracked fn _ _ Hgone) as (s' & -> & _).
Qed.

(** X7. A read never changes the set of keys or the budget, and a
    read that fails before anything is loaded leaves the whole store as
    it was: the read of a key that is neither tracked nor in memory,
    the read of a tracked key that has no entry and no file, which
    raises [IOError] and not [KeyError], and the read of a tracked key
    whose file [load] rejects. *)
Theorem failed_read_leaves_store :
  ∀ key s,
    _keys (__getitem__ key s).2 = _keys s ∧
    available_memory (__getitem__ key s).2 = available_memory s ∧
    (inmem s !! key = None → key ∉ _keys s →
     __getitem__ key s = (Raise (missing_key_error key), s)) ∧
    (inmem s !! key = None → key ∈ _keys s → disk s !! fn key = None →
     __getitem__ key s = (Raise IOError, s)) ∧
    (∀ b, inmem s !! key = None → key ∈ _keys s →
          disk s !! fn key = Some b → load b = None →
          __getitem__ key s = (Raise LoadError, s)).
Proof.
  intros key s. unfold Core.__getitem__.
  destruct (inmem s !! key) eqn:Hkey; [done|].
  case_decide as Hin; [|done].
  unfold bind, Core.get_from_disk. rewrite Hkey.
  destruct (disk s !! fn key) as [b|] eqn:Hfile; [|done].
  destruct (load b) as [v|] eqn:Hload.
  2:{ split_and!; [done..|]. by intros b' _ _ [= <-] _. }
  simpl. rewrite lookup_insert_eq.
  pose proof (shrink_frame fn nbytes dump (set_inmem <[key := v]> s))
    as [Hk Ha].
  destruct (shrink _) as [[[]|e] s2]; simpl in *;
    (split_and!; [done..|]); intros b' _ _ [= <-]; congruence.
Qed.

(** X4. After a write that returns, the memory usage is at most the
    budget, or nothing is left in memory. *)
Theorem write_within_budget key value s s' :
  __setitem__ key value s = (Ok tt, s') →
  (memory_usage s' ≤ available_memory s')%Z ∨ inmem s' = ∅.
Proof.
  destruct (setitem_shrinks key value s) as (s0 & _ & ->).
  apply shrink_converges.
Qed.

(** The loop of [shrink], on a stack in descending order of size: what
    it spills is at least as big as what it keeps. *)
Lemma shrink_loop_largest stack mem s s' k v k' v' :
  StronglySorted (flip (by_size nbytes)) stack →
  stack ≡ₚ map_to_list (inmem s) →
  shrink_loop stack mem s = (Ok tt, s') →
  inmem s !! k = Some v → inmem s' !! k = None →
  inmem s' !! k' = Some v' →
  (nbytes v' ≤ nbytes v)%Z.
Proof.
  revert mem s. induction stack as [|[key data] stack IH];
    intros mem s Hsort Hperm.
  { intros [= <-]. congruence. }
  simpl. case_decide as Hgt; [|intros [= <-]; congruence].
  assert (inmem s !! key = Some data) as Hkey.
  { apply elem_of_map_to_list. rewrite <-Hperm. by left. }
  unfold bind, Core.move_to_disk. rewrite Hkey.
  destruct (dump data); [|done].
  apply StronglySorted_cons in Hsort as [Hall Hsort].
  assert (stack ≡ₚ map_to_list (delete key (inmem s))) as Hperm'.
  { apply (Permutation_cons_inv (a := (key, data))).
    by rewrite Hperm, map_to_list_delete. }
  intros Hloop Hk Hk' Hkept.
  destruct (decide (k = key)) as [->|Hne].
  - assert (v = data) as -> by congruence.
    destruct (shrink_loop_flush_loop fn nbytes dump stack
                (mem - nbytes data)%Z
                (set_inmem (delete key) (set_disk <[fn key := b]> s)))
      as [n Hn].
    rewrite Hloop in Hn.
    pose proof (flush_loop_inmem fn dump (take n stack.*1)
                  (set_inmem (delete key) (set_disk <[fn key := b]> s)) k')
      as Hin.
    rewrite <-Hn in Hin. simpl in Hin.
    destruct Hin as [Hin|[_ Hin]]; [|congruence].
    rewrite Hkept in Hin. symmetry in Hin.
    assert ((k', v') ∈ stack) as Hmem.
    { rewrite Hperm'. by apply elem_of_map_to_list. }
    rewrite Forall_forall in Hall. apply (Hall _ Hmem).
  - apply (IH (mem - nbytes data)%Z
               (set_inmem (delete key) (set_disk <[fn key := b]> s)));
      [done|exact Hperm'|exact Hloop| |done..].
    simpl. by rewrite lookup_delete_ne.
Qed.

Lemma by_size_flip_trans : Transitive (flip (by_size (K:=K) nbytes)).
Proof. intros a b c. unfold flip, by_size. lia. Qed.

Lemma by_size_total : Total (by_size (K:=K) nbytes).
Proof. intros a b. unfold by_size. lia. Qed.

(** X3. [shrink] spills the largest values first: when it returns,
    every value it has moved to disk is at least as big as every value
    it has kept in memory. *)
Theorem shrink_evicts_largest s s' k v k' v' :
  shrink s = (Ok tt, s') →
  inmem s !! k = Some v → inmem s' !! k = None →
  inmem s' !! k' = Some v' →
  (nbytes v' ≤ nbytes v)%Z.
Proof.
  unfold Core.shrink. case_decide as Hlt; [intros [= <-]; congruence|].
  apply shrink_loop_largest; [|apply shrink_stack_perm].
  unfold sorted_items.
  apply (@Sorted_StronglySorted _ _ by_size_flip_trans).
  apply Sorted_reverse.
  apply (@Sorted_merge_sort _ _ _ by_size_total).
Qed.

(** *** The store as a dictionary *)

(** Inserting an entry and tracking its key changes the content at that
    key only. *)
Lemma content_inserted key value s k :
  content (set_keys (λ tracked, tracked ∪ {[key]})
             (set_inmem <[key := value]> s)) k
  = if decide (k = key) then Some value else content s k.
Proof.
  unfold Core.content. simpl. rewrite lookup_insert.
  destruct (decide (k = key)) as [->|Hne].
  { by rewrite decide_True by done. }
  rewrite decide_False by (intros ->; done).
  destruct (inmem s !! k); [done|].
  destruct (decide (k ∈ _keys s)) as [Hk|Hk].
  - rewrite decide_True; [done|]. apply elem_of_union. by left.
  - rewrite decide_False; [done|].
    intros [?| ->%elem_of_singleton]%elem_of_union; done.
Qed.

(** Loading the file of a tracked key into memory changes no content. *)
Lemma content_loaded key s b v k :
  inmem s !! key = None → key ∈ _keys s →
  disk s !! fn key = Some b → load b = Some v →
  content (set_inmem <[key := v]> s) k = content s k.
Proof.
  intros Hm Hk Hb Hl. unfold Core.content. simpl. rewrite lookup_insert.
  destruct (decide (key = k)) as [<-|Hne]; [|done].
  by rewrite Hm, decide_True, Hb.
Qed.

Lemma flush_loop_all ks s :
  NoDup ks → (∀ k, k ∈ ks ↔ is_Some (inmem s !! k)) →
  (flush_loop ks s).1 = Ok tt → inmem (flush_loop ks s).2 = ∅.
Proof.
  intros Hnd Hks Hok. apply map_empty. intros k.
  destruct (flush_loop_inmem fn dump ks s k) as [Heq|[_ ?]]; [|done].
  destruct (decide (k ∈ ks)) as [Hk|Hk].
  - clear Heq. revert s Hks Hok. induction ks as [|key ks IH]; intros s Hks Hok.
    { by apply elem_of_nil in Hk. }
    rewrite flush_loop_cons in *.
    apply NoDup_cons in Hnd as [Hkey Hnd].
    pose proof (move_to_disk_inmem fn dump key s) as Hi.
    destruct (move_to_disk key s) as [[[]|e] s1]; simpl in *; [|done].
    destruct Hi as [_ Hi].
    apply elem_of_cons in Hk as [->|Hk].
    + destruct (flush_loop_inmem fn dump ks s1 key) as [->|[_ ?]]; [|done].
      by rewrite Hi, lookup_delete_eq.
    + apply IH; [done..| |done].
      intros k0. rewrite Hi. split.
      * intros Hk0. rewrite lookup_delete_ne by (by intros ->).
        apply Hks. by right.
      * intros [v [Hne Hv]%lookup_delete_Some].
        assert (k0 ∈ key :: ks) as [?|?]%elem_of_cons; [|done..].
        apply Hks. by eexists.
  - rewrite Heq. apply eq_None_not_Some. by rewrite <-Hks.
Qed.

(** Before it was modified, the disk held no entry for a key that the
    file of keys could hide. *)
Lemma content_manifest s c k :
  (∀ k, fn k ≠ keyfile) →
  content (set_disk <[keyfile := c]> s) k = content s k.
Proof.
  intros Hne. unfold Core.content. simpl.
  by rewrite lookup_insert_ne by apply not_eq_sym, Hne.
Qed.

Section Codec.
Hypothesis fn_inj : Inj (=) (=) fn.
Hypothesis codec : ∀ v, ∃ b, dump v = Dumped b ∧ load b = Some v.

Set Default Proof Using "fn_inj codec".

Lemma codec_dumps s ks :
  (∀ k, k ∈ ks → is_Some (inmem s !! k)) → ∀ k, k ∈ ks → dumps dump s k.
Proof.
  intros Hin k [v Hv]%Hin. destruct (codec v) as (b & Hb & _). by exists v, b.
Qed.

Lemma flush_loop_returns ks s :
  NoDup ks → (∀ k, k ∈ ks → is_Some (inmem s !! k)) →
  (flush_loop ks s).1 = Ok tt.
Proof.
  intros Hnd Hin. pose proof (codec_dumps s ks Hin) as Hd.
  by destruct (flush_loop_total fn dump ks s Hnd Hd) as (Hok & _).
Qed.

(** Moving entries to disk changes no content. *)
Lemma flush_loop_content ks s k :
  NoDup ks → (∀ k, k ∈ ks → is_Some (inmem s !! k)) → inmem_tracked s →
  content (flush_loop ks s).2 k = content s k.
Proof.
  intros Hnd Hin Ht.
  pose proof (codec_dumps s ks Hin) as Hd.
  destruct (flush_loop_total fn dump ks s Hnd Hd) as (Hok & Hm & _).
  destruct (flush_loop_frame fn dump ks s) as [Hkeys _].
  unfold Core.content. rewrite Hkeys.
  destruct (decide (k ∈ ks)) as [Hk|Hk].
  - rewrite (Hm k Hk). destruct (Hin k Hk) as [v Hv]. rewrite Hv.
    rewrite decide_True by (apply Ht; by exists v).
    destruct (codec v) as (b & Hb & Hl).
    rewrite (flush_loop_written fn dump ks s k v b); [done..| |done|done|done].
    intros k' _ Hfn. by apply fn_inj.
  - destruct (flush_loop_inmem fn dump ks s k) as [->|[? _]]; [|done].
    destruct (inmem s !! k); [done|]. case_decide; [|done].
    rewrite flush_loop_disk_frame; [done|].
    intros k' Hk' Hfn. apply Hk. by rewrite <-(fn_inj _ _ Hfn).
Qed.

Lemma shrink_content s k :
  inmem_tracked s →
  (shrink s).1 = Ok tt ∧ content (shrink s).2 k = content s k.
Proof.
  intros Ht. destruct (shrink_flush_loop fn nbytes dump s)
    as (ks & Hnd & Hin & ->).
  split; [by apply flush_loop_returns|by apply flush_loop_content].
Qed.

(** Removing the entry of a key changes the content at that key
    only. *)
Lemma content_removed key s k :
  content (removed key s) k = if decide (k = key) then None else content s k.
Proof using fn_inj.
  unfold Core.content, Core.removed. simpl.
  destruct (decide (k = key)) as [->|Hne].
  - rewrite lookup_delete_eq, decide_False; [done|].
    apply not_elem_of_difference. right. by apply elem_of_singleton.
  - rewrite lookup_delete_ne by done.
    destruct (inmem s !! k); [done|].
    rewrite lookup_delete_ne by (intros Hfn; by apply Hne, fn_inj).
    destruct (decide (k ∈ _keys s)) as [Hk|Hk].
    + rewrite decide_True; [done|]. apply elem_of_difference.
      split; [done|]. by intros ->%elem_of_singleton.
    + rewrite decide_False; [done|]. by intros [? _]%elem_of_difference.
Qed.

Lemma getitem_content key s :
  inmem_tracked s →
  match content s key with
  | Some v => ∃ s', __getitem__ key s = (Ok v, s') ∧
                    _keys s' = _keys s ∧
                    inmem_tracked s' ∧
                    ∀ k, content s' k = content s k
  | None => ∃ e, __getitem__ key s = (Raise e, s) ∧ e ≠ DumpError
  end.
Proof.
  intros Ht. unfold Core.__getitem__.
  destruct (inmem s !! key) as [v|] eqn:Hm.
  { assert (content s key = Some v) as ->; [|by exists s].
    unfold Core.content. by rewrite Hm. }
  assert (content s key = if decide (key ∈ _keys s)
                          then disk s !! fn key ≫= load else None) as ->.
  { unfold Core.content. by rewrite Hm. }
  case_decide as Hk.
  2:{ exists (missing_key_error key). split; [done|].
      unfold Core.missing_key_error. by destruct (formats key). }
  unfold bind, Core.get_from_disk. rewrite Hm.
  destruct (disk s !! fn key) as [b|] eqn:Hb; [|by exists IOError].
  simpl. destruct (load b) as [v|] eqn:Hl; [|by exists LoadError].
  simpl. rewrite lookup_insert_eq.
  assert (inmem_tracked (set_inmem <[key := v]> s)) as Ht1.
  { intros k. unfold in_memory. simpl. rewrite lookup_insert.
    case_decide; [by subst|apply Ht]. }
  pose proof (λ k, shrink_content (set_inmem <[key := v]> s) k Ht1) as Hs.
  pose proof (shrink_frame fn nbytes dump (set_inmem <[key := v]> s))
    as [Hkeys _].
  pose proof (shrink_keeps_tracked fn nbytes dump _ Ht1) as Ht2.
  destruct (shrink _) as [r s2]. simpl in *.
  destruct (Hs key) as [-> _]. exists s2. split_and!; [done..|].
  intros k. destruct (Hs k) as [_ ->].
  by apply (content_loaded key s b v).
Qed.

Lemma setitem_content key value s :
  inmem_tracked s →
  ∃ s', __setitem__ key value s = (Ok tt, s') ∧
        inmem_tracked s' ∧
        ∀ k, content s' k = if decide (k = key) then Some value
                            else content s k.
Proof.
  intros Ht.
  pose proof (setitem_keeps_tracked fn nbytes dump key value s Ht) as Ht'.
  destruct (setitem_shrinks key value s) as (s0 & Hs0 & Hset).
  rewrite Hset in *.
  assert (inmem_tracked s0 ∧
          ∀ k, k ≠ key → content s0 k = content s k) as [Ht0 Hc0].
  { destruct Hs0 as [[-> _]|[-> Hk]]; [done|]. split.
    - pose proof (delitem_keeps_tracked fn key s Ht) as Hd.
      by rewrite (delitem_tracked fn _ _ Hk) in Hd.
    - intros k Hne. by rewrite content_removed, decide_False. }
  set (inserted := set_keys _ _) in *.
  assert (inmem_tracked inserted) as Hti.
  { intros k. unfold in_memory, inserted. simpl. rewrite lookup_insert.
    case_decide as Heq.
    - subst k. intros _. apply elem_of_union. right.
      by apply elem_of_singleton.
    - intros ?%Ht0. apply elem_of_union. by left. }
  pose proof (λ k, shrink_content inserted k Hti) as Hs.
  destruct (shrink inserted) as [r s']. simpl in *.
  destruct (Hs key) as [-> _]. exists s'. split_and!; [done..|].
  intros k. destruct (Hs k) as [_ ->].
  unfold inserted. rewrite content_inserted.
  case_decide; [done|]. by apply Hc0.
Qed.

Lemma flush_content s bkeys :
  (∀ k, fn k ≠ keyfile) → inmem_tracked s →
  dump_keys (elements (_keys s)) = Dumped bkeys →
  ∃ s1, flush s = (Ok tt, s1) ∧
        inmem s1 = ∅ ∧
        _keys s1 = _keys s ∧
        available_memory s1 = available_memory s ∧
        disk s1 !! keyfile = Some bkeys ∧
        ∀ k, content s1 k = content s k.
Proof.
  intros Hne Ht Hkeys.
  set (ks := (map_to_list (inmem s)).*1).
  assert (NoDup ks) as Hnd by apply NoDup_fst_map_to_list.
  assert (∀ k, k ∈ ks ↔ is_Some (inmem s !! k)) as Hks.
  { intros k. unfold ks. rewrite list_elem_of_fmap. split.
    - intros ([k' v] & -> & Hkv%elem_of_map_to_list). by eexists.
    - intros [v Hv]. exists (k, v). by rewrite elem_of_map_to_list. }
  pose proof (λ k, flush_loop_content ks s k Hnd (λ k, proj1 (Hks k)) Ht) as Hc.
  pose proof (flush_loop_returns ks s Hnd (λ k, proj1 (Hks k))) as Hok.
  pose proof (flush_loop_all ks s Hnd Hks) as He.
  destruct (flush_loop_frame fn dump ks s) as [Hfk Hfa].
  unfold Core.flush, bind. fold ks.
  destruct (flush_loop ks s) as [r s'] eqn:Hloop. simpl in *. subst r.
  unfold Core.write_keys. rewrite Hfk, Hkeys.
  eexists. split_and!; [done|by apply He|done|done| |].
  - simpl. by rewrite lookup_insert_eq.
  - intros k. rewrite content_manifest by done. apply Hc.
Qed.

End Codec.

Set Default Proof Using "Type".

Lemma reachable_tracked s : reachable s → inmem_tracked s.
Proof.
  induction 1 as [avail|c s _ IH].
  - intros k [v Hv]. unfold Core.fresh in Hv. simpl in Hv.
    by rewrite lookup_empty in Hv.
  - by apply after_keeps_tracked.
Qed.

(** X10. With file names that tell keys apart and a [load] that
    inverts a [dump] that never raises, on a store whose keys in memory
    are tracked, a write returns and acts as the assignment of a
    dictionary: afterwards a read looks up the new value at the key and
    what it looked up before at every other key, spilled or not. *)
Theorem dict_write key value s :
  Inj (=) (=) fn →
  (∀ v, ∃ b, dump v = Dumped b ∧ load b = Some v) →
  inmem_tracked s →
  ∃ s', __setitem__ key value s = (Ok tt, s') ∧
        ∀ k, content s' k = if decide (k = key) then Some value
                            else content s k.
Proof.
  intros Hinj Hcodec Ht.
  destruct (setitem_content Hinj Hcodec key value s Ht) as (s' & ? & _ & ?).
  by exists s'.
Qed.

(** X11. Under the same conditions a read returns exactly what the
    store holds for the key, the entry in memory or else the loaded
    file, and changes the content at no key; where the store holds
    nothing for the key the read raises and leaves the store as it
    was. *)
Theorem dict_read key s :
  Inj (=) (=) fn →
  (∀ v, ∃ b, dump v = Dumped b ∧ load b = Some v) →
  inmem_tracked s →
  match content s key with
  | Some v => ∃ s', __getitem__ key s = (Ok v, s') ∧
                    _keys s' = _keys s ∧
                    ∀ k, content s' k = content s k
  | None => ∃ e, __getitem__ key s = (Raise e, s) ∧ e ≠ DumpError
  end.
Proof.
  intros Hinj Hcodec Ht.
  pose proof (getitem_content Hinj Hcodec key s Ht) as Hg.
  destruct (content s key); [|done].
  destruct Hg as (s' & ? & ? & _ & ?). by exists s'.
Qed.

(** X12. With file names that tell keys apart, deleting a tracked key
    acts as the deletion of a dictionary: afterwards nothing is held for
    the key and every other key holds what it held. *)
Theorem dict_delete key s :
  Inj (=) (=) fn →
  key ∈ _keys s →
  ∃ s', __delitem__ key s = (Ok tt, s') ∧
        ∀ k, content s' k = if decide (k = key) then None else content s k.
Proof.
  intros Hinj Hk. exists (removed key s). split.
  - by apply delitem_tracked.
  - intros k. by apply content_removed.
Qed.

(** X13. Under the conditions of X10, with no file name equal to the
    name of the file of keys and a dump of the list of keys that does
    not raise, [flush] changes the content at no key: all of it is then
    held on disk. *)
Theorem dict_flush s bkeys :
  Inj (=) (=) fn →
  (∀ k, fn k ≠ keyfile) →
  (∀ v, ∃ b, dump v = Dumped b ∧ load b = Some v) →
  inmem_tracked s →
  dump_keys (elements (_keys s)) = Dumped bkeys →
  ∃ s', flush s = (Ok tt, s') ∧
        inmem s' = ∅ ∧
        ∀ k, content s' k = content s k.
Proof.
  intros Hinj Hne Hcodec Ht Hkeys.
  destruct (flush_content Hinj Hcodec s bkeys Hne Ht Hkeys)
    as (s' & ? & ? & _ & _ & _ & ?).
  by exists s'.
Qed.

(** X14. Persistence, for a store whose keys in memory are all
    tracked and two stores built with the same functions: file names
    that tell keys apart, none of them the name of the file of keys, a
    [load] that inverts a [dump] that never raises and that gives back
    the list of keys that was dumped. After a [flush], a store built on
    the same directory tracks the same keys, has nothing in memory,
    holds the same content at every key, and returns on a read what the
    first store held. *)
Theorem reload_after_flush s bkeys ks avail :
  Inj (=) (=) fn →
  (∀ k, fn k ≠ keyfile) →
  (∀ v, ∃ b, dump v = Dumped b ∧ load b = Some v) →
  inmem_tracked s →
  dump_keys (elements (_keys s)) = Dumped bkeys →
  load_keys bkeys = Some ks →
  list_to_set ks = _keys s →
  ∃ s1 s2, flush s = (Ok tt, s1) ∧
           __init__ None (Some (disk s1)) avail = Ok s2 ∧
           _keys s2 = _keys s ∧
           inmem s2 = ∅ ∧
           (∀ k, content s2 k = content s k) ∧
           (∀ k v, content s k = Some v →
                   ∃ s3, __getitem__ k s2 = (Ok v, s3)).
Proof.
  intros Hinj Hne Hcodec Ht Hkeys Hload Hset.
  destruct (flush_content Hinj Hcodec s bkeys Hne Ht Hkeys)
    as (s1 & Hf & He & Hk & _ & Hm & Hc).
  exists s1. unfold Core.__init__. rewrite Hm, Hload. eexists.
  split_and!; [done|done|done|done| |].
  - intros k. rewrite <-Hc. unfold Core.content. simpl.
    by rewrite He, Hset, Hk.
  - intros k v Hv.
    set (s2 := Chest _ _ _ _).
    assert (inmem_tracked s2) as Ht2.
    { intros k' [v' Hv']. unfold s2 in Hv'. simpl in Hv'.
      by rewrite lookup_empty in Hv'. }
    assert (content s2 k = Some v) as Hv2.
    { rewrite <-Hv, <-Hc. unfold Core.content. simpl.
      by rewrite He, Hset, Hk. }
    pose proof (getitem_content Hinj Hcodec k s2 Ht2) as Hg.
    rewrite Hv2 in Hg. destruct Hg as (s3 & ? & _). by exists s3.
Qed.

(** *** Nothing is lost on the way to disk *)

Lemma flush_loop_keeps_data ks s k v :
  Inj (=) (=) fn →
  NoDup ks → (∀ k, k ∈ ks → is_Some (inmem s !! k)) →
  inmem s !! k = Some v →
  inmem (flush_loop ks s).2 !! k = Some v ∨
  (inmem (flush_loop ks s).2 !! k = None ∧
   ∃ b, dump v = Dumped b ∧ disk (flush_loop ks s).2 !! fn k = Some b).
Proof.
  intros Hinj. revert s.
  induction ks as [|key ks IH]; intros s Hnd Hin Hv; [by left|].
  rewrite flush_loop_cons.
  apply NoDup_cons in Hnd as [Hkey Hnd].
  destruct (Hin key) as [v0 Hv0]; [by left|].
  unfold Core.move_to_disk. rewrite Hv0.
  destruct (dump v0) as [b|p] eqn:Hb; [|by left].
  set (s1 := set_inmem _ _).
  destruct (decide (k = key)) as [->|Hne].
  - assert (v0 = v) as -> by congruence. right. split.
    + destruct (flush_loop_inmem fn dump ks s1 key) as [->|[_ ?]]; [|done].
      simpl. apply lookup_delete_eq.
    + exists b. split; [done|]. rewrite flush_loop_disk_frame.
      * simpl. apply lookup_insert_eq.
      * intros k' Hk' Hfn. apply Hkey. by rewrite <-(Hinj _ _ Hfn).
  - apply IH; [done| |].
    + intros k' Hk'. simpl. rewrite lookup_delete_ne by (by intros ->).
      apply Hin. by right.
    + simpl. by rewrite lookup_delete_ne.
Qed.

(** X16. With file names that tell keys apart, [shrink] loses no
    value, and [flush] loses no value of a key whose file is not the
    file of keys, also when a dump raises midway: whatever their
    outcome, a value that was in memory is still in memory or is dumped
    in full in the file of its key. *)
Theorem spill_keeps_data s k v :
  Inj (=) (=) fn →
  inmem s !! k = Some v →
  (inmem (shrink s).2 !! k = Some v ∨
   ∃ b, dump v = Dumped b ∧ disk (shrink s).2 !! fn k = Some b) ∧
  (fn k ≠ keyfile →
   inmem (flush s).2 !! k = Some v ∨
   ∃ b, dump v = Dumped b ∧ disk (flush s).2 !! fn k = Some b).
Proof.
  intros Hinj Hv. split.
  - destruct (shrink_flush_loop fn nbytes dump s) as (ks & Hnd & Hin & ->).
    destruct (flush_loop_keeps_data ks s k v Hinj Hnd Hin Hv)
      as [?|[_ ?]]; auto.
  - intros Hne.
    set (ks := (map_to_list (inmem s)).*1).
    assert (NoDup ks) as Hnd by apply NoDup_fst_map_to_list.
    assert (∀ k, k ∈ ks → is_Some (inmem s !! k)) as Hin.
    { intros k0 ([k' v'] & -> & Hkv%elem_of_map_to_list)%list_elem_of_fmap.
      by eexists. }
    pose proof (flush_loop_keeps_data ks s k v Hinj Hnd Hin Hv) as Hk.
    unfold Core.flush, bind. fold ks.
    destruct (flush_loop ks s) as [[[]|e] s1]; simpl in *.
    + assert (∀ c, inmem (set_disk <[keyfile := c]> s1) !! k = Some v ∨
                   ∃ b, dump v = Dumped b ∧
                        disk (set_disk <[keyfile := c]> s1) !! fn k = Some b)
        as Hw.
      { intros c. simpl. rewrite lookup_insert_ne by done.
        destruct Hk as [?|[_ ?]]; auto. }
      unfold Core.write_keys. destruct (dump_keys _); simpl; apply Hw.
    + destruct Hk as [?|[_ ?]]; auto.
Qed.

(** *** Every tracked key can be read *)

Section Readable.
Hypothesis fn_not_keyfile : ∀ k, fn k ≠ keyfile.
Hypothesis codec : ∀ v, ∃ b, dump v = Dumped b ∧ load b = Some v.

Set Default Proof Using "fn_not_keyfile codec".

Lemma flush_loop_files_dumped ks s :
  NoDup ks → (∀ k, k ∈ ks → is_Some (inmem s !! k)) →
  files_dumped s → files_dumped (flush_loop ks s).2.
Proof.
  intros Hnd Hin Hfd k b Hb.
  apply (flush_loop_disk fn dump) in Hb
    as [Hb|(k' & v & _ & _ & _ & [Hd|Hd])]; [by eapply Hfd|by exists v| |done..].
  destruct (codec v) as (b' & Hb' & _). congruence.
Qed.

Lemma shrink_files_dumped s : files_dumped s → files_dumped (shrink s).2.
Proof.
  destruct (shrink_flush_loop fn nbytes dump s) as (ks & Hnd & Hin & ->).
  by apply flush_loop_files_dumped.
Qed.

Lemma removed_files_dumped key s :
  files_dumped s → files_dumped (removed key s).
Proof.
  intros Hfd k b. simpl. intros [_ Hb]%lookup_delete_Some. by eapply Hfd.
Qed.

Lemma after_files_dumped c s : files_dumped s → files_dumped (after c s).
Proof.
  intros Hfd. destruct c as [key|key value|key|]; simpl.
  - unfold Core.__getitem__. destruct (inmem s !! key) eqn:Hm; [done|].
    case_decide; [|done]. unfold bind, Core.get_from_disk. rewrite Hm.
    destruct (disk s !! fn key); [|done]. destruct (load _) as [v|]; [|done].
    simpl. rewrite lookup_insert_eq.
    pose proof (shrink_files_dumped (set_inmem <[key := v]> s) Hfd) as Hs.
    by destruct (shrink _) as [[[]|e] s2].
  - destruct (setitem_shrinks key value s) as (s0 & Hs0 & ->).
    apply shrink_files_dumped.
    destruct Hs0 as [[-> _]|[-> _]]; [done|].
    by apply removed_files_dumped.
  - destruct (delitem_state fn key s) as (_ & Hd & _).
    intros k b. rewrite Hd. intros [_ Hb]%lookup_delete_Some. by eapply Hfd.
  - unfold Core.flush, bind.
    set (ks := (map_to_list (inmem s)).*1).
    assert (files_dumped (flush_loop ks s).2) as Hl.
    { apply flush_loop_files_dumped; [apply NoDup_fst_map_to_list| |done].
      intros k0 ([k' v'] & -> & Hkv%elem_of_map_to_list)%list_elem_of_fmap.
      by eexists. }
    destruct (flush_loop ks s) as [[[]|e] s1]; simpl in *; [|done].
    assert (∀ c, files_dumped (set_disk <[keyfile := c]> s1)) as Hw.
    { intros c k b. simpl.
      rewrite lookup_insert_ne by apply not_eq_sym, fn_not_keyfile.
      apply Hl. }
    unfold Core.write_keys. destruct (dump_keys _); simpl; apply Hw.
Qed.

Lemma reachable_files_dumped s : reachable s → files_dumped s.
Proof.
  induction 1 as [avail|c s _ IH]; [|by apply after_files_dumped].
  intros k b Hb. unfold Core.fresh in Hb. simpl in Hb.
  by rewrite lookup_empty in Hb.
Qed.

End Readable.

Set Default Proof Using "Type".

(** X15. In a store built without a seed on a fresh directory, with
    file names that tell keys apart, none of them the name of the file
    of keys, and a [load] that inverts a [dump] that never raises: after
    any calls of the mapping interface and of [flush], every tracked
    key can be read, and the read returns what the store holds for
    it. *)
Theorem tracked_key_readable key s :
  Inj (=) (=) fn →
  (∀ k, fn k ≠ keyfile) →
  (∀ v, ∃ b, dump v = Dumped b ∧ load b = Some v) →
  reachable s → key ∈ _keys s →
  ∃ v s', __getitem__ key s = (Ok v, s') ∧ content s key = Some v.
Proof.
  intros Hinj Hne Hcodec Hr Hk.
  destruct (reachable_consistent fn nbytes dump load dump_keys tuple_len
            Hinj Hne s Hr)
    as (Hm & _ & Hkd).
  pose proof (reachable_files_dumped Hne Hcodec s Hr) as Hfd.
  assert (∃ v, content s key = Some v) as [v Hv].
  { unfold Core.content. destruct (inmem s !! key) as [v|] eqn:Hi; [by eexists|].
    rewrite decide_True by done.
    destruct (Hkd key Hk) as [[v Hv]|[b Hb]]; [congruence|].
    rewrite Hb. destruct (Hfd key b Hb) as [v Hd].
    destruct (Hcodec v) as (b' & Hb' & Hl).
    exists v. simpl. congruence. }
  pose proof (getitem_content Hinj Hcodec key s Hm) as Hg.
  rewrite Hv in Hg. destruct Hg as (s' & ? & _). by exists v, s'.
Qed.

(** *** [shrink] spills no more than it must *)

Lemma shrink_loop_needed stack mem s s' :
  StronglySorted (flip (by_size nbytes)) stack →
  stack ≡ₚ map_to_list (inmem s) →
  mem = sum_nbytes nbytes stack →
  shrink_loop stack mem s = (Ok tt, s') →
  ∀ k v, inmem s !! k = Some v → inmem s' !! k = None →
         (memory_usage s' + nbytes v > available_memory s')%Z.
Proof.
  revert mem s. induction stack as [|[key data] stack IH];
    intros mem s Hsort Hperm Hmem.
  { intros [= <-]. congruence. }
  simpl. case_decide as Hgt; [|intros [= <-]; congruence].
  assert (inmem s !! key = Some data) as Hkey.
  { apply elem_of_map_to_list. rewrite <-Hperm. by left. }
  unfold bind, Core.move_to_disk. rewrite Hkey.
  destruct (dump data); [|done].
  set (s1 := set_inmem _ _).
  apply StronglySorted_cons in Hsort as [Hall Hsort].
  assert (stack ≡ₚ map_to_list (inmem s1)) as Hperm'.
  { apply (Permutation_cons_inv (a := (key, data))). simpl.
    by rewrite Hperm, map_to_list_delete. }
  assert ((mem - nbytes data)%Z = sum_nbytes nbytes stack) as Hmem'.
  { simpl in Hmem. lia. }
  intros Hloop k v Hk Hk'.
  specialize (IH (mem - nbytes data)%Z s1 Hsort Hperm' Hmem' Hloop).
  destruct (decide (k = key)) as [->|Hne].
  2:{ apply (IH k v); [|done]. simpl. by rewrite lookup_delete_ne. }
  assert (v = data) as -> by congruence.
  assert (memory_usage s1 = (mem - nbytes data)%Z) as Hu1.
  { unfold Core.memory_usage. by rewrite <-(sum_nbytes_perm nbytes _ _ Hperm'). }
  destruct stack as [|[key2 data2] stack2].
  { injection Hloop as <-. rewrite Hu1. simpl. lia. }
  simpl in Hloop. case_decide as Hgt2.
  2:{ injection Hloop as <-. rewrite Hu1. simpl. lia. }
  assert (inmem s1 !! key2 = Some data2) as Hkey2.
  { apply elem_of_map_to_list. rewrite <-Hperm'. by left. }
  assert (inmem s' !! key2 = None) as Hgone.
  { revert Hloop. unfold bind, Core.move_to_disk. rewrite Hkey2.
    destruct (dump data2) as [b2|]; [|done]. intros Hloop.
    destruct (shrink_loop_flush_loop fn nbytes dump stack2
                (mem - nbytes data - nbytes data2)%Z
                (set_inmem (delete key2)
                   (set_disk <[fn key2 := b2]> s1))) as [n Hn].
    rewrite Hloop in Hn.
    pose proof (flush_loop_inmem fn dump (take n stack2.*1)
                  (set_inmem (delete key2) (set_disk <[fn key2 := b2]> s1))
                  key2) as Hin.
    rewrite <-Hn in Hin. simpl in Hin.
    destruct Hin as [Hin|[_ Hin]]; [|done].
    by rewrite Hin, lookup_delete_eq. }
  pose proof (IH key2 data2 Hkey2 Hgone) as Hlater.
  rewrite Forall_forall in Hall.
  assert (flip (by_size nbytes) (key, data) (key2, data2)) as Hle.
  { apply Hall. by left. }
  unfold flip, by_size in Hle. simpl in Hle. lia.
Qed.

(** X9. [shrink] spills no more than it must: when it returns, putting
    any one of the values it has moved to disk back in memory would
    take the usage above the budget. *)
Theorem shrink_spills_only_when_needed s s' k v :
  shrink s = (Ok tt, s') →
  inmem s !! k = Some v → inmem s' !! k = None →
  (memory_usage s' + nbytes v > available_memory s')%Z.
Proof.
  unfold Core.shrink. case_decide as Hlt; [intros [= <-]; congruence|].
  intros Hloop. revert k v.
  apply (shrink_loop_needed _ _ _ _) with (4 := Hloop);
    [|apply shrink_stack_perm|].
  - unfold sorted_items.
    apply (@Sorted_StronglySorted _ _ by_size_flip_trans).
    apply Sorted_reverse.
    apply (@Sorted_merge_sort _ _ _ by_size_total).
  - unfold Core.memory_usage. apply sum_nbytes_perm.
    by rewrite shrink_stack_perm.
Qed.

End ChestMore.

(** ** The concrete store, again *)

Lemma holding_tracked : inmem_tracked Ex.holding.
Proof.
  intros k [v Hv]. unfold Ex.holding in *. simpl in *.
  apply lookup_singleton_Some in Hv as [<- _]. by apply elem_of_singleton.
Qed.

Lemma shrink_evicts_largest_witness :
  shrink Ex.name_of Ex.nbytes Ex.dump Ex.crowded
  = (Ok tt, (shrink Ex.name_of Ex.nbytes Ex.dump Ex.crowded).2) ∧
  inmem Ex.crowded !! 2%Z = Some (Ex.blob Byte.x62 9) ∧
  inmem (shrink Ex.name_of Ex.nbytes Ex.dump Ex.crowded).2 !! 2%Z = None ∧
  inmem (shrink Ex.name_of Ex.nbytes Ex.dump Ex.crowded).2 !! 3%Z
  = Some (Ex.blob Byte.x63 6) ∧
  (Ex.nbytes (Ex.blob Byte.x63 6) ≤ Ex.nbytes (Ex.blob Byte.x62 9))%Z.
Proof.
  assert (shrink Ex.name_of Ex.nbytes Ex.dump Ex.crowded
          = (Ok tt, (shrink Ex.name_of Ex.nbytes Ex.dump Ex.crowded).2))
    as H1 by (vm_compute; reflexivity).
  assert (inmem Ex.crowded !! 2%Z = Some (Ex.blob Byte.x62 9))
    as H2 by (vm_compute; reflexivity).
  assert (inmem (shrink Ex.name_of Ex.nbytes Ex.dump Ex.crowded).2 !! 2%Z = None)
    as H3 by (vm_compute; reflexivity).
  assert (inmem (shrink Ex.name_of Ex.nbytes Ex.dump Ex.crowded).2 !! 3%Z
          = Some (Ex.blob Byte.x63 6)) as H4 by (vm_compute; reflexivity).
  split_and!; [exact H1|exact H2|exact H3|exact H4|].
  exact (shrink_evicts_largest Ex.name_of Ex.nbytes Ex.dump Ex.crowded _
           2%Z _ 3%Z _ H1 H2 H3 H4).
Defined.

Lemma shrink_spills_only_when_needed_witness :
  shrink Ex.name_of Ex.nbytes Ex.dump Ex.crowded
  = (Ok tt, (shrink Ex.name_of Ex.nbytes Ex.dump Ex.crowded).2) ∧
  inmem Ex.crowded !! 2%Z = Some (Ex.blob Byte.x62 9) ∧
  inmem (shrink Ex.name_of Ex.nbytes Ex.dump Ex.crowded).2 !! 2%Z = None ∧
  (memory_usage Ex.nbytes (shrink Ex.name_of Ex.nbytes Ex.dump Ex.crowded).2
   + Ex.nbytes (Ex.blob Byte.x62 9)
   > available_memory (shrink Ex.name_of Ex.nbytes Ex.dump Ex.crowded).2)%Z.
Proof.
  assert (shrink Ex.name_of Ex.nbytes Ex.dump Ex.crowded
          = (Ok tt, (shrink Ex.name_of Ex.nbytes Ex.dump Ex.crowded).2))
    as H1 by (vm_compute; reflexivity).
  assert (inmem Ex.crowded !! 2%Z = Some (Ex.blob Byte.x62 9))
    as H2 by (vm_compute; reflexivity).
  assert (inmem (shrink Ex.name_of Ex.nbytes Ex.dump Ex.crowded).2 !! 2%Z = None)
    as H3 by (vm_compute; reflexivity).
  split_and!; [exact H1|exact H2|exact H3|].
  exact (shrink_spills_only_when_needed Ex.name_of Ex.nbytes Ex.dump
           Ex.crowded _ 2%Z _ H1 H2 H3).
Defined.

Lemma write_within_budget_witness :
  __setitem__ Ex.name_of Ex.nbytes Ex.dump 4%Z (Ex.blob Byte.x64 3) Ex.crowded
  = (Ok tt, (__setitem__ Ex.name_of Ex.nbytes Ex.dump 4%Z
               (Ex.blob Byte.x64 3) Ex.crowded).2) ∧
  ((memory_usage Ex.nbytes
      (__setitem__ Ex.name_of Ex.nbytes Ex.dump 4%Z
         (Ex.blob Byte.x64 3) Ex.crowded).2
    ≤ available_memory
        (__setitem__ Ex.name_of Ex.nbytes Ex.dump 4%Z
           (Ex.blob Byte.x64 3) Ex.crowded).2)%Z ∨
   inmem (__setitem__ Ex.name_of Ex.nbytes Ex.dump 4%Z
            (Ex.blob Byte.x64 3) Ex.crowded).2 = ∅).
Proof.
  assert (__setitem__ Ex.name_of Ex.nbytes Ex.dump 4%Z (Ex.blob Byte.x64 3)
            Ex.crowded
          = (Ok tt, (__setitem__ Ex.name_of Ex.nbytes Ex.dump 4%Z
                       (Ex.blob Byte.x64 3) Ex.crowded).2))
    as H1 by (vm_compute; reflexivity).
  split; [exact H1|].
  exact (write_within_budget Ex.name_of Ex.nbytes Ex.dump 4%Z
           (Ex.blob Byte.x64 3) Ex.crowded _ H1).
Defined.

Lemma delete_forgets_key_witness :
  7%Z ∈ _keys Ex.holding ∧
  ∃ s', __delitem__ Ex.name_of 7%Z Ex.holding = (Ok tt, s') ∧
        __contains__ 7%Z s' = false ∧
        S (__len__ s') = __len__ Ex.holding ∧
        ¬ in_memory 7%Z s' ∧
        ¬ on_disk Ex.name_of 7%Z s' ∧
        __getitem__ Ex.name_of Ex.nbytes Ex.dump Ex.load Ex.not_tuple 7%Z s'
        = (Raise (missing_key_error Ex.not_tuple 7%Z), s') ∧
        (formats Ex.not_tuple 7%Z = true →
         __getitem__ Ex.name_of Ex.nbytes Ex.dump Ex.load Ex.not_tuple 7%Z s'
         = (Raise KeyError, s')) ∧
        (formats Ex.not_tuple 7%Z = false →
         __getitem__ Ex.name_of Ex.nbytes Ex.dump Ex.load Ex.not_tuple 7%Z s'
         = (Raise TypeError, s')) ∧
        (__delitem__ Ex.name_of 7%Z s').1 = Raise KeyError.
Proof.
  assert (7%Z ∈ _keys Ex.holding) as Hk.
  { apply (bool_decide_unpack _). vm_compute. exact I. }
  split; [exact Hk|].
  exact (delete_forgets_key Ex.name_of Ex.nbytes Ex.dump Ex.load Ex.not_tuple
           7%Z Ex.holding Hk).
Defined.

Lemma dict_write_witness :
  Inj (=) (=) Ex.name_of ∧
  (∀ v, ∃ b, Ex.dump v = Dumped b ∧ Ex.load b = Some v) ∧
  inmem_tracked Ex.holding ∧
  ∃ s', __setitem__ Ex.name_of Ex.nbytes Ex.dump 8%Z (Ex.blob Byte.x64 30)
          Ex.holding = (Ok tt, s') ∧
        ∀ k, content Ex.name_of Ex.load s' k
             = if decide (k = 8%Z) then Some (Ex.blob Byte.x64 30)
               else content Ex.name_of Ex.load Ex.holding k.
Proof.
  split_and!; [exact name_of_inj|exact codec_total|exact holding_tracked|].
  exact (dict_write Ex.name_of Ex.nbytes Ex.dump Ex.load 8%Z
           (Ex.blob Byte.x64 30) Ex.holding name_of_inj codec_total
           holding_tracked).
Defined.

Lemma dict_read_witness :
  Inj (=) (=) Ex.name_of ∧
  (∀ v, ∃ b, Ex.dump v = Dumped b ∧ Ex.load b = Some v) ∧
  inmem_tracked Ex.holding ∧
  content Ex.name_of Ex.load Ex.holding 7%Z = Some (Ex.blob Byte.x63 6) ∧
  match content Ex.name_of Ex.load Ex.holding 7%Z with
  | Some v =>
      ∃ s', __getitem__ Ex.name_of Ex.nbytes Ex.dump Ex.load Ex.not_tuple 7%Z Ex.holding
            = (Ok v, s') ∧
            _keys s' = _keys Ex.holding ∧
            ∀ k, content Ex.name_of Ex.load s' k
                 = content Ex.name_of Ex.load Ex.holding k
  | None =>
      ∃ e, __getitem__ Ex.name_of Ex.nbytes Ex.dump Ex.load Ex.not_tuple 7%Z Ex.holding
           = (Raise e, Ex.holding) ∧ e ≠ DumpError
  end.
Proof.
  split_and!; [exact name_of_inj|exact codec_total|exact holding_tracked
              |vm_compute; reflexivity|].
  exact (dict_read Ex.name_of Ex.nbytes Ex.dump Ex.load Ex.not_tuple 7%Z
           Ex.holding
           name_of_inj codec_total holding_tracked).
Defined.

Lemma dict_delete_witness :
  Inj (=) (=) Ex.name_of ∧
  7%Z ∈ _keys Ex.holding ∧
  ∃ s', __delitem__ Ex.name_of 7%Z Ex.holding = (Ok tt, s') ∧
        ∀ k, content Ex.name_of Ex.load s' k
             = if decide (k = 7%Z) then None
               else content Ex.name_of Ex.load Ex.holding k.
Proof.
  assert (7%Z ∈ _keys Ex.holding) as Hk.
  { apply (bool_decide_unpack _). vm_compute. exact I. }
  split_and!; [exact name_of_inj|exact Hk|].
  exact (dict_delete Ex.name_of Ex.load 7%Z Ex.holding name_of_inj Hk).
Defined.

Lemma dict_flush_witness :
  Inj (=) (=) Ex.name_of ∧
  (∀ k, Ex.name_of k ≠ keyfile) ∧
  (∀ v, ∃ b, Ex.dump v = Dumped b ∧ Ex.load b = Some v) ∧
  inmem_tracked Ex.holding ∧
  Ex.dump_keys (elements (_keys Ex.holding)) = Dumped [Byte.x07] ∧
  ∃ s', flush Ex.name_of Ex.dump Ex.dump_keys Ex.holding = (Ok tt, s') ∧
        inmem s' = ∅ ∧
        ∀ k, content Ex.name_of Ex.load s' k
             = content Ex.name_of Ex.load Ex.holding k.
Proof.
  assert (Ex.dump_keys (elements (_keys Ex.holding)) = Dumped [Byte.x07])
    as Hkeys by (vm_compute; reflexivity).
  split_and!; [exact name_of_inj|exact name_of_not_keyfile|exact codec_total
              |exact holding_tracked|exact Hkeys|].
  exact (dict_flush Ex.name_of Ex.dump Ex.load Ex.dump_keys Ex.holding
           [Byte.x07] name_of_inj name_of_not_keyfile codec_total
           holding_tracked Hkeys).
Defined.

Lemma reload_after_flush_witness :
  Inj (=) (=) Ex.name_of ∧
  (∀ k, Ex.name_of k ≠ keyfile) ∧
  (∀ v, ∃ b, Ex.dump v = Dumped b ∧ Ex.load b = Some v) ∧
  inmem_tracked Ex.holding ∧
  Ex.dump_keys (elements (_keys Ex.holding)) = Dumped [Byte.x07] ∧
  Ex.load_keys [Byte.x07] = Some [7%Z] ∧
  list_to_set [7%Z] = _keys Ex.holding ∧
  ∃ s1 s2,
    flush Ex.name_of Ex.dump Ex.dump_keys Ex.holding = (Ok tt, s1) ∧
    __init__ Ex.load_keys None (Some (disk s1)) None = Ok s2 ∧
    _keys s2 = _keys Ex.holding ∧
    inmem s2 = ∅ ∧
    (∀ k, content Ex.name_of Ex.load s2 k
          = content Ex.name_of Ex.load Ex.holding k) ∧
    (∀ k v, content Ex.name_of Ex.load Ex.holding k = Some v →
            ∃ s3, __getitem__ Ex.name_of Ex.nbytes Ex.dump Ex.load Ex.not_tuple k s2
                  = (Ok v, s3)).
Proof.
  assert (Ex.dump_keys (elements (_keys Ex.holding)) = Dumped [Byte.x07])
    as Hkeys by (vm_compute; reflexivity).
  assert (Ex.load_keys [Byte.x07] = Some [7%Z]) as Hload
    by (vm_compute; reflexivity).
  assert (list_to_set [7%Z] = _keys Ex.holding) as Hset
    by (vm_compute; reflexivity).
  split_and!; [exact name_of_inj|exact name_of_not_keyfile|exact codec_total
              |exact holding_tracked|exact Hkeys|exact Hload|exact Hset|].
  exact (reload_after_flush Ex.name_of Ex.nbytes Ex.dump Ex.load Ex.dump_keys
           Ex.load_keys Ex.not_tuple Ex.holding [Byte.x07] [7%Z] None name_of_inj
           name_of_not_keyfile codec_total holding_tracked Hkeys Hload Hset).
Defined.

Lemma tracked_key_readable_witness :
  Inj (=) (=) Ex.name_of ∧
  (∀ k, Ex.name_of k ≠ keyfile) ∧
  (∀ v, ∃ b, Ex.dump v = Dumped b ∧ Ex.load b = Some v) ∧
  reachable Ex.name_of Ex.nbytes Ex.dump Ex.load Ex.dump_keys Ex.not_tuple
    Ex.reloaded ∧
  2%Z ∈ _keys Ex.reloaded ∧
  ∃ v s', __getitem__ Ex.name_of Ex.nbytes Ex.dump Ex.load Ex.not_tuple 2%Z Ex.reloaded
          = (Ok v, s') ∧
          content Ex.name_of Ex.load Ex.reloaded 2%Z = Some v.
Proof.
  assert (2%Z ∈ _keys Ex.reloaded) as Hk.
  { apply (bool_decide_unpack _). vm_compute. exact I. }
  split_and!; [exact name_of_inj|exact name_of_not_keyfile|exact codec_total
              |exact reloaded_reachable|exact Hk|].
  exact (tracked_key_readable Ex.name_of Ex.nbytes Ex.dump Ex.load
           Ex.dump_keys Ex.not_tuple 2%Z Ex.reloaded name_of_inj name_of_not_keyfile
           codec_total reloaded_reachable Hk).
Defined.

Lemma spill_keeps_data_witness :
  Inj (=) (=) Ex.name_of ∧
  inmem Ex.crowded !! 2%Z = Some (Ex.blob Byte.x62 9) ∧
  Ex.name_of 2 ≠ keyfile ∧
  (inmem (shrink Ex.name_of Ex.nbytes Ex.dump_short Ex.crowded).2 !! 2%Z
   = Some (Ex.blob Byte.x62 9) ∨
   ∃ b, Ex.dump_short (Ex.blob Byte.x62 9) = Dumped b ∧
        disk (shrink Ex.name_of Ex.nbytes Ex.dump_short Ex.crowded).2
          !! Ex.name_of 2 = Some b) ∧
  (inmem (flush Ex.name_of Ex.dump_short Ex.dump_keys Ex.crowded).2 !! 2%Z
   = Some (Ex.blob Byte.x62 9) ∨
   ∃ b, Ex.dump_short (Ex.blob Byte.x62 9) = Dumped b ∧
        disk (flush Ex.name_of Ex.dump_short Ex.dump_keys Ex.crowded).2
          !! Ex.name_of 2 = Some b).
Proof.
  assert (inmem Ex.crowded !! 2%Z = Some (Ex.blob Byte.x62 9))
    as Hv by (vm_compute; reflexivity).
  destruct (spill_keeps_data Ex.name_of Ex.nbytes Ex.dump_short Ex.dump_keys
              Ex.crowded 2%Z _ name_of_inj Hv)
    as [Hs Hf].
  split_and!; [exact name_of_inj|exact Hv|exact (name_of_not_keyfile 2)
              |exact Hs|exact (Hf (name_of_not_keyfile 2))].
Defined.
